(** * System prompt router: a shallow embedding of
    [system-prompt-router/prompt_router.py] and the properties of its
    catalog, its embedding cache and its similarity ranking. *)

From Stdlib Require Import List String ZArith Lia Bool Sorted Permutation.
Import ListNotations.
Open Scope string_scope.
Open Scope list_scope.

Set Implicit Arguments.

(** ** Python exceptions and the error monad *)

Inductive exn : Type :=
| ValueError (msg : string)
| KeyError (key : string)
| IndexError (msg : string)
| Exception (msg : string).

(** [str(e)]: the message of the exception; a [KeyError] prints the
    repr of its key. *)
Definition str_exn (e : exn) : string :=
  match e with
  | ValueError m => m
  | KeyError k => ("'" ++ k ++ "'")%string
  | IndexError m => m
  | Exception m => m
  end.

(** A call either raises ([inl]) or returns ([inr]). *)
Definition result (A : Type) : Type := (exn + A)%type.

Definition raise {A : Type} (e : exn) : result A := inl e.
Definition ret {A : Type} (a : A) : result A := inr a.

Definition bind {A B : Type} (m : result A) (k : A -> result B) : result B :=
  match m with
  | inl e => inl e
  | inr a => k a
  end.

Notation "x <- m ;; k" := (bind m (fun x => k))
  (at level 61, m at next level, right associativity).

(** The body of a [for] loop that appends one item per element. *)
Fixpoint for_each {A B : Type} (f : A -> result B) (l : list A) : result (list B) :=
  match l with
  | [] => ret []
  | a :: l' => b <- f a ;; bs <- for_each f l' ;; ret (b :: bs)
  end.

(** ** Python dictionaries: insertion-ordered, keys unique *)

Module Dict.
Section Dict.
Variable V : Type.

Definition t : Type := list (string * V).

Definition empty : t := [].

(** [d.get(k)] *)
Fixpoint get (d : t) (k : string) : option V :=
  match d with
  | [] => None
  | (k', v) :: d' => if String.eqb k' k then Some v else get d' k
  end.

(** [d[k]] *)
Definition getitem (d : t) (k : string) : result V :=
  match get d k with
  | Some v => ret v
  | None => raise (KeyError k)
  end.

(** [d[k] = v]: an existing key keeps its position, a new key goes
    last. *)
Fixpoint set (d : t) (k : string) (v : V) : t :=
  match d with
  | [] => [(k, v)]
  | (k', v') :: d' =>
      if String.eqb k' k then (k', v) :: d' else (k', v') :: set d' k v
  end.

Definition keys (d : t) : list string := map fst d.
Definition values (d : t) : list V := map snd d.
Definition items (d : t) : list (string * V) := d.

(** [not d] *)
Definition is_empty (d : t) : bool :=
  match d with [] => true | _ => false end.

(** A list of pairs is a dictionary when no key occurs twice. *)
Definition wf (d : t) : Prop := NoDup (keys d).
End Dict.
End Dict.

Arguments Dict.empty {V}.

(** ** Python list operations *)

(** [l[:k]] for a Python integer [k]: a negative [k] counts from the
    end. *)
Definition slice_to {A : Type} (k : Z) (l : list A) : list A :=
  if (0 <=? k)%Z then firstn (Z.to_nat k) l
  else firstn (Z.to_nat (Z.of_nat (List.length l) + k)) l.

(** [l[i]] for an index produced by numpy (never negative). *)
Definition list_getitem {A : Type} (l : list A) (i : nat) : result A :=
  match nth_error l i with
  | Some a => ret a
  | None => raise (IndexError "list index out of range")
  end.

(** ** Catalog entries and the router object *)

Record prompt_data : Type := mk_prompt_data {
  description : string;
  system_prompt : string
}.

(** ** What the code takes from numpy *)

Section Numpy.

Variable R : Type.
Variable leb : R -> R -> bool.

(** Entry [i] of [xs] is at most entry [j]. *)
Definition key_le (xs : list R) (i j : nat) : Prop :=
  forall a b, nth_error xs i = Some a -> nth_error xs j = Some b -> leb a b = true.

(** Entries [i] and [j] of [xs] compare equal. *)
Definition key_tie (xs : list R) (i j : nat) : Prop :=
  key_le xs i j /\ key_le xs j i.

(** What numpy documents of [np.argsort(xs)]: the indices of [xs], each
    once, in an order that sorts [xs] ascending.  The default sort kind
    promises nothing about the order of equal entries. *)
Definition argsort_spec (argsort : list R -> list nat) : Prop :=
  forall xs,
    Permutation (argsort xs) (seq 0 (List.length xs)) /\
    StronglySorted (key_le xs) (argsort xs).

(** A stable ascending argsort, by insertion: one sort that meets the
    contract, on which the theorems can be run.  Equal entries keep
    their index order here; numpy's default kind need not keep it. *)
Fixpoint insert_index (p : nat * R) (l : list (nat * R)) : list (nat * R) :=
  match l with
  | [] => [p]
  | q :: l' => if leb (snd p) (snd q) then p :: q :: l' else q :: insert_index p l'
  end.

Definition sort_indexed (l : list (nat * R)) : list (nat * R) :=
  fold_right insert_index [] l.

Definition argsort_stable (xs : list R) : list nat :=
  map fst (sort_indexed (combine (seq 0 (List.length xs)) xs)).

(** Ascending, and on equal keys by ascending index. *)
Definition pair_le (p q : nat * R) : Prop :=
  leb (snd p) (snd q) = true /\ (leb (snd q) (snd p) = true -> fst p < fst q).

Definition stable_le (xs : list R) (i j : nat) : Prop :=
  key_le xs i j /\ (key_le xs j i -> i < j).

End Numpy.

(** ** The external chat-completion service *)

(** What the code reads of a completion: the content of each choice's
    message and the token usage, if any. *)
Record completion : Type := mk_completion {
  choices : list (option string);
  usage : option (list (string * Z))
}.

Section Router.

(** Scalars of the embedding vectors.  The code uses floating-point
    numbers; the model only needs their operations and their order
    ([leb a b] is [a <= b]), taken on values that are comparable (no
    NaN). *)
Variable R : Type.
Variable zero : R.
Variable add mul : R -> R -> R.

(** The sentence embedder is an external model, chosen when the router
    is built and never changed: one fixed-length vector per text.  The
    development follows one router, or routers built with the same
    embedding model. *)
Variable embed : string -> list R.

(** [np.argsort]: the indices that sort an array in ascending order. *)
Variable argsort : list R -> list nat.

(** [openai_client.chat.completions.create] with the model, the system
    message and the user message: it returns a completion or raises. *)
Variable chat_create : string -> string -> string -> result completion.

Record SystemPromptRouter : Type := mk_router {
  openai_model : string;
  prompt_library : Dict.t prompt_data;
  prompt_embeddings : option (list (list R));
  prompt_names : list string
}.

(** The state [__init__] leaves behind. *)
Definition init (model : string) : SystemPromptRouter :=
  {| openai_model := model;
     prompt_library := Dict.empty;
     prompt_embeddings := None;
     prompt_names := [] |}.

(** [embedding_model.encode(texts)]: one row per text, in order. *)
Definition encode (texts : list string) : list (list R) := map embed texts.

(** Inner product of two vectors, the products summed from the left. *)
Definition dot (u v : list R) : R :=
  fold_left add (map (fun p => mul (fst p) (snd p)) (combine u v)) zero.

(** [np.dot(M, q.T).flatten()]: row by row, the inner products of a row
    of [M] with each row of [q] ([q] has one row, the query's). *)
Definition np_dot_flat (M q : list (list R)) : list R :=
  flat_map (fun row => map (fun col => dot row col) q) M.

(** The loop of [_compute_prompt_embeddings]: one description and one
    name appended per item of the dictionary. *)
Definition collect (lib : Dict.t prompt_data) : list string * list string :=
  fold_left
    (fun acc item =>
       (fst acc ++ [description (snd item)], snd acc ++ [fst item]))
    (Dict.items lib) ([], []).

Definition _compute_prompt_embeddings (self : SystemPromptRouter)
  : SystemPromptRouter :=
  if Dict.is_empty (prompt_library self) then self
  else
    let '(descriptions, names) := collect (prompt_library self) in
    {| openai_model := openai_model self;
       prompt_library := prompt_library self;
       prompt_embeddings := Some (encode descriptions);
       prompt_names := names |}.

(** The assignment [self.prompt_library = lib]. *)
Definition set_library (self : SystemPromptRouter)
    (lib : Dict.t prompt_data) : SystemPromptRouter :=
  {| openai_model := openai_model self;
     prompt_library := lib;
     prompt_embeddings := prompt_embeddings self;
     prompt_names := prompt_names self |}.

Definition add_prompt (self : SystemPromptRouter)
    (name description system_prompt : string) : SystemPromptRouter :=
  _compute_prompt_embeddings
    (set_library self
       (Dict.set (prompt_library self) name
          (mk_prompt_data description system_prompt))).

Definition load_prompt_library (self : SystemPromptRouter)
    (prompts : Dict.t prompt_data) : SystemPromptRouter :=
  _compute_prompt_embeddings (set_library self prompts).

Definition no_prompts_loaded : exn :=
  ValueError "No prompts loaded. Please add prompts first.".

Definition find_best_prompt (self : SystemPromptRouter)
    (user_query : string) (top_k : Z) : result (list (string * R * string)) :=
  if Dict.is_empty (prompt_library self) then raise no_prompts_loaded
  else
    match prompt_embeddings self with
    | None => raise no_prompts_loaded
    | Some embeddings =>
        let query_embedding := encode [user_query] in
        let similarities := np_dot_flat embeddings query_embedding in
        let top_indices := slice_to top_k (rev (argsort similarities)) in
        for_each
          (fun idx =>
             prompt_name <- list_getitem (prompt_names self) idx ;;
             similarity_score <- list_getitem similarities idx ;;
             data <- Dict.getitem (prompt_library self) prompt_name ;;
             ret (prompt_name, similarity_score, system_prompt data))
          top_indices
    end.

Definition get_prompt_details (self : SystemPromptRouter)
    (prompt_name : string) : option prompt_data :=
  Dict.get (prompt_library self) prompt_name.

Definition list_prompts (self : SystemPromptRouter) : Dict.t string :=
  map (fun item => (fst item, description (snd item)))
      (Dict.items (prompt_library self)).

(** Values stored in the dictionary [generate_response] returns. *)
Inductive value : Type :=
| VNone
| VStr (s : string)
| VFloat (r : R)
| VUsage (u : list (string * Z)).

Definition opt_str (o : option string) : value :=
  match o with Some s => VStr s | None => VNone end.

Definition opt_float (o : option R) : value :=
  match o with Some r => VFloat r | None => VNone end.

Definition opt_usage (o : option (list (string * Z))) : value :=
  match o with Some u => VUsage u | None => VNone end.

(** The [if]/[elif]/[else] that opens [generate_response]: the matched
    prompt's name, its similarity score and the system prompt to use. *)
Definition select_system_prompt (self : SystemPromptRouter)
    (user_query : string) (use_best_prompt : bool)
    (custom_system_prompt : option string)
  : result (string * option R * string) :=
  match custom_system_prompt with
  | Some (String c cs) => ret ("custom", None, String c cs)
  | _ =>
      if use_best_prompt then
        best_matches <- find_best_prompt self user_query 1 ;;
        match best_matches with
        | [] => raise (ValueError "No prompts available for matching")
        | (matched_prompt, similarity_score, system_prompt) :: _ =>
            ret (matched_prompt, Some similarity_score, system_prompt)
        end
      else
        raise (ValueError
          "Either use_best_prompt must be True or custom_system_prompt must be provided")
  end.

(** The body of the [try]: the call and the dictionary built from the
    completion. *)
Definition try_body (self : SystemPromptRouter) (user_query : string)
    (matched_prompt : string) (similarity_score : option R)
    (system_prompt : string) : result (Dict.t value) :=
  response <- chat_create (openai_model self) system_prompt user_query ;;
  first_choice <- list_getitem (choices response) 0 ;;
  ret [("response", opt_str first_choice);
       ("matched_prompt", VStr matched_prompt);
       ("similarity_score", opt_float similarity_score);
       ("system_prompt_used", VStr system_prompt);
       ("model_used", VStr (openai_model self));
       ("usage", opt_usage (usage response))].

Definition generate_response (self : SystemPromptRouter)
    (user_query : string) (use_best_prompt : bool)
    (custom_system_prompt : option string) : result (Dict.t value) :=
  sel <- select_system_prompt self user_query use_best_prompt
           custom_system_prompt ;;
  let '(matched_prompt, similarity_score, system_prompt) := sel in
  match try_body self user_query matched_prompt similarity_score system_prompt with
  | inr d => ret d
  | inl e =>
      ret [("error", VStr (str_exn e));
           ("matched_prompt", VStr matched_prompt);
           ("similarity_score", opt_float similarity_score);
           ("system_prompt_used", VStr system_prompt)]
  end.

(** The descriptions of a catalog, in dictionary order. *)
Definition descriptions_of (lib : Dict.t prompt_data) : list string :=
  map (fun item => description (snd item)) lib.

(** The cache agrees with the catalog: unless the catalog is empty, the
    names are its keys and the matrix is the encoding of its
    descriptions, both in dictionary order. *)
Definition cache_ok (self : SystemPromptRouter) : Prop :=
  Dict.wf (prompt_library self) /\
  (prompt_library self <> [] ->
   prompt_embeddings self = Some (encode (descriptions_of (prompt_library self))) /\
   prompt_names self = Dict.keys (prompt_library self)).

(** The components of a result tuple [(name, score, system_prompt)]. *)
Definition name_of (r : string * R * string) : string := fst (fst r).
Definition score_of (r : string * R * string) : R := snd (fst r).
Definition payload_of (r : string * R * string) : string := snd r.

(** The similarity of every catalog entry to a query, in dictionary
    order, and the result tuple of the entry at an index. *)
Definition scores (lib : Dict.t prompt_data) (user_query : string) : list R :=
  map (fun item => dot (embed (description (snd item))) (embed user_query)) lib.

Definition match_at (lib : Dict.t prompt_data) (user_query : string)
    (idx : nat) : string * R * string :=
  let item := nth idx lib (EmptyString, mk_prompt_data EmptyString EmptyString) in
  (fst item,
   dot (embed (description (snd item))) (embed user_query),
   system_prompt (snd item)).

(** The cache is aligned with the catalog: one matrix row and one name
    per entry, row [i] being the embedding of the description stored
    under the [i]-th name, the whole matrix being the encoding of the
    catalog's descriptions. *)
Definition cache_aligned (self : SystemPromptRouter) : Prop :=
  exists M,
    prompt_embeddings self = Some M /\
    M = encode (descriptions_of (prompt_library self)) /\
    List.length M = List.length (prompt_library self) /\
    List.length (prompt_names self) = List.length (prompt_library self) /\
    prompt_names self = Dict.keys (prompt_library self) /\
    forall i name,
      nth_error (prompt_names self) i = Some name ->
      exists data,
        Dict.get (prompt_library self) name = Some data /\
        nth_error M i = Some (embed (description data)).

(** The states a router object goes through: built by [__init__], then
    changed by [add_prompt] and [load_prompt_library] only.  What is
    loaded is a Python dictionary; [load_prompt_library] keeps a
    reference to it, and the caller is taken not to change it behind the
    router's back. *)
Inductive reachable : SystemPromptRouter -> Prop :=
| reach_init : forall model, reachable (init model)
| reach_add : forall self name description system_prompt,
    reachable self ->
    reachable (add_prompt self name description system_prompt)
| reach_load : forall self prompts,
    reachable self -> Dict.wf prompts ->
    reachable (load_prompt_library self prompts).

End Router.

Arguments init R model : clear implicits.

(** ** Order of the results *)

(** Position of a name in the name list. *)
Fixpoint index_of (name : string) (names : list string) : option nat :=
  match names with
  | [] => None
  | n :: ns =>
      if String.eqb n name then Some 0 else option_map S (index_of name ns)
  end.

Section Order.

Variable R : Type.
Variable leb : R -> R -> bool.

Definition score_ge (a b : R) : Prop := leb b a = true.

Definition score_tie (a b : R) : Prop := leb a b = true /\ leb b a = true.

(** Scores never go up along the list. *)
Definition descending (res : list (string * R * string)) : Prop :=
  Sorted score_ge (map (@score_of R) res).

(** Among results of equal score, the entry inserted first comes
    first. *)
Definition ties_first_inserted (names : list string)
    (res : list (string * R * string)) : Prop :=
  forall i j ri rj,
    i < j -> nth_error res i = Some ri -> nth_error res j = Some rj ->
    score_tie (score_of ri) (score_of rj) ->
    exists a b,
      index_of (name_of ri) names = Some a /\
      index_of (name_of rj) names = Some b /\ a < b.

(** The results come in the reverse of the order in which a list of
    indices holds their catalog positions: of two results, the one that
    comes first has its position later in the list. *)
Definition reverses_order (names : list string) (order : list nat)
    (res : list (string * R * string)) : Prop :=
  forall i j ri rj,
    i < j -> nth_error res i = Some ri -> nth_error res j = Some rj ->
    exists a b pa pb,
      index_of (name_of ri) names = Some a /\
      index_of (name_of rj) names = Some b /\
      nth_error order pa = Some a /\
      nth_error order pb = Some b /\ pb < pa.

End Order.

(** ** A small instance: integer scalars, a two-entry catalog *)

Module Sample.

(** A toy embedder: the length of the text and a constant. *)
Definition embed (s : string) : list Z := [Z.of_nat (String.length s); 1%Z].

Definition argsort : list Z -> list nat := argsort_stable Z.leb.

(** A service that always fails, as in the test of the error path. *)
Definition chat_fail (model system user : string) : result completion :=
  raise (Exception "API Error").

Definition empty_router : SystemPromptRouter Z := init Z "gpt-3.5-turbo".

(** Two entries whose descriptions embed to the same vector. *)
Definition pets : SystemPromptRouter Z :=
  add_prompt embed
    (add_prompt embed empty_router "a" "cats" "PA")
    "b" "dogs" "PB".

(** Two entries of different scores. *)
Definition two : SystemPromptRouter Z :=
  load_prompt_library embed empty_router
    [("code", mk_prompt_data "programming help" "You are a coding assistant.");
     ("cooking", mk_prompt_data "recipes and meals" "You are a cooking assistant.")].

Definition find (self : SystemPromptRouter Z) (q : string) (k : Z)
  : result (list (string * Z * string)) :=
  find_best_prompt 0%Z Z.add Z.mul embed argsort self q k.

End Sample.

(** ** A catalog built entry by entry *)

Section Building.

Variable R : Type.
Variable embed : string -> list R.

(** One [add_prompt] call per item, in order, as the tests and the
    examples build their catalogs. *)
Definition add_prompts (self : SystemPromptRouter R)
    (entries : list (string * prompt_data)) : SystemPromptRouter R :=
  fold_left
    (fun router item =>
       add_prompt embed router (fst item)
         (description (snd item)) (system_prompt (snd item)))
    entries self.

(** The router whose cache is computed from its catalog. *)
Definition fresh_cache (model : string) (lib : Dict.t prompt_data)
  : SystemPromptRouter R :=
  {| openai_model := model;
     prompt_library := lib;
     prompt_embeddings := Some (encode embed (descriptions_of lib));
     prompt_names := Dict.keys lib |}.

End Building.

(** ** The email categorizer's similarity classification
    ([email-assistant/email_agents.py]) *)

Inductive EmailCategory : Type :=
| URGENT | WORK | PERSONAL | PROMOTIONAL | SOCIAL | FINANCIAL
| TRAVEL | HEALTH | EDUCATION | SPAM | UNKNOWN.

(** Of the agent, the classification reads the dictionary from
    category to description only. *)
Record EmailCategorizationAgent : Type := mk_agent {
  category_prompts : list (EmailCategory * string)
}.

Section Classifier.

Variable R : Type.
Variable zero : R.
Variable add mul : R -> R -> R.
Variable leb : R -> R -> bool.
Variable embed : string -> list R.

(** [np.argmax]: the index of the first occurrence of the maximum; the
    running best is replaced by a strictly greater entry only. *)
Fixpoint argmax_from (best_idx : nat) (best : R) (i : nat) (xs : list R) : nat :=
  match xs with
  | [] => best_idx
  | x :: xs' =>
      if leb x best then argmax_from best_idx best (S i) xs'
      else argmax_from i x (S i) xs'
  end.

Definition np_argmax (xs : list R) : result nat :=
  match xs with
  | [] => raise (ValueError "attempt to get argmax of an empty sequence")
  | x :: xs' => ret (argmax_from 0 x 1 xs')
  end.

(** The body of the [try] of [_classify_category]. *)
Definition classify_body (self : EmailCategorizationAgent)
    (email_content : string) : result (EmailCategory * R) :=
  let email_embedding := encode embed [email_content] in
  let category_descriptions := map snd (category_prompts self) in
  let category_embeddings := encode embed category_descriptions in
  let similarities :=
    np_dot_flat zero add mul category_embeddings email_embedding in
  best_idx <- np_argmax similarities ;;
  best_category <- list_getitem (map fst (category_prompts self)) best_idx ;;
  confidence <- list_getitem similarities best_idx ;;
  ret (best_category, confidence).

Definition _classify_category (self : EmailCategorizationAgent)
    (email_content : string) : EmailCategory * R :=
  match classify_body self email_content with
  | inr r => r
  | inl _ => (UNKNOWN, zero)
  end.

End Classifier.

(** ** The prompt library module ([prompt_library.py]) *)

(** [needle in hay] on strings. *)
Fixpoint contains (needle hay : string) : bool :=
  String.prefix needle hay ||
  match hay with
  | EmptyString => false
  | String _ hay' => contains needle hay'
  end.

Section PromptLibrary.

(** The module's table of prompts, and [str.lower]. *)
Variable PROMPT_LIBRARY : Dict.t prompt_data.
Variable lower : string -> string.

Definition get_prompt_library : Dict.t prompt_data := PROMPT_LIBRARY.

Definition get_prompt_by_name (name : string) : option prompt_data :=
  Dict.get PROMPT_LIBRARY name.

Definition list_prompt_names : list string := Dict.keys PROMPT_LIBRARY.

(** The test of the loop of [search_prompts_by_keyword], on the
    lower-cased keyword. *)
Definition keyword_matches (keyword : string) (item : string * prompt_data) : bool :=
  contains keyword (lower (description (snd item))) ||
  contains keyword (lower (fst item)).

Definition search_prompts_by_keyword (keyword : string) : Dict.t prompt_data :=
  let keyword := lower keyword in
  fold_left
    (fun matching_prompts item =>
       if keyword_matches keyword item
       then Dict.set matching_prompts (fst item) (snd item)
       else matching_prompts)
    (Dict.items PROMPT_LIBRARY) [].

End PromptLibrary.

(** ** More of the small instance *)

Module SampleMore.

(** Lower-casing of the letters A to Z. *)
Definition lower_ascii (c : Ascii.ascii) : Ascii.ascii :=
  let n := Ascii.nat_of_ascii c in
  if (65 <=? n)%nat && (n <=? 90)%nat then Ascii.ascii_of_nat (n + 32) else c.

Fixpoint lower (s : string) : string :=
  match s with
  | EmptyString => EmptyString
  | String c s' => String (lower_ascii c) (lower s')
  end.

Definition library : Dict.t prompt_data :=
  [("code_writer", mk_prompt_data "Write, debug, and explain code" "You are an engineer.");
   ("legal_assistant", mk_prompt_data "Explain legal concepts" "You are a legal assistant.");
   ("data_analyst", mk_prompt_data "Analyze data and decode trends" "You are an analyst.")].

Definition agent : EmailCategorizationAgent :=
  mk_agent [(URGENT, "now"); (WORK, "meetings"); (SPAM, "phishing")].

(** A service that answers with one choice. *)
Definition chat_ok (model system user : string) : result completion :=
  ret (mk_completion [Some "Hello"] (Some [("total_tokens", 100%Z)])).

(** A service that answers with no choice at all. *)
Definition chat_no_choice (model system user : string) : result completion :=
  ret (mk_completion [] None).

End SampleMore.

(** * Properties *)

(** ** The error monad and the loop *)

Lemma for_each_map (A B : Type) (f : A -> result B) (g : A -> B) (l : list A) :
  (forall a, In a l -> f a = inr (g a)) -> for_each f l = inr (map g l).
Proof.
  induction l as [|a l IH]; intros H; simpl.
  - reflexivity.
  - rewrite (H a (or_introl eq_refl)). simpl.
    rewrite IH by (intros b Hb; apply H; now right).
    reflexivity.
Qed.

Lemma for_each_raises (A B : Type) (f : A -> result B) (l : list A) (e : exn) :
  for_each f l = inl e -> exists a, In a l /\ f a = inl e.
Proof.
  induction l as [|a l IH]; simpl; intros H.
  - discriminate.
  - destruct (f a) as [e'|b] eqn:Ha; simpl in H.
    + exists a. split; [now left|]. congruence.
    + destruct (for_each f l) as [e'|bs]; simpl in H; [|discriminate].
      destruct (IH H) as (x & Hx & Hfx). exists x. split; [now right|assumption].
Qed.

(** ** Dictionaries *)

Module DictFacts.
Section Facts.

Variable V : Type.
Implicit Types (d : Dict.t V) (k : string) (v : V).

Lemma get_set_eq d k v : Dict.get (Dict.set d k v) k = Some v.
Proof.
  induction d as [|[k' v'] d IH]; simpl.
  - now rewrite String.eqb_refl.
  - destruct (String.eqb k' k) eqn:E; simpl; rewrite E; [reflexivity|exact IH].
Qed.

Lemma get_set_neq d k k' v : k <> k' -> Dict.get (Dict.set d k v) k' = Dict.get d k'.
Proof.
  intros Hne. induction d as [|[k0 v0] d IH]; simpl.
  - destruct (String.eqb k k') eqn:E; [|reflexivity].
    apply String.eqb_eq in E. contradiction.
  - destruct (String.eqb k0 k) eqn:E; simpl.
    + apply String.eqb_eq in E. subst k0.
      destruct (String.eqb k k') eqn:E'; [|reflexivity].
      apply String.eqb_eq in E'. contradiction.
    + now rewrite IH.
Qed.

Lemma get_None d k : Dict.get d k = None <-> ~ In k (Dict.keys d).
Proof.
  induction d as [|[k' v'] d IH]; simpl.
  - tauto.
  - destruct (String.eqb k' k) eqn:E.
    + apply String.eqb_eq in E. split; [discriminate|]. intros H. exfalso. apply H. now left.
    + apply String.eqb_neq in E. rewrite IH. tauto.
Qed.

Lemma get_Some_in d k v : Dict.get d k = Some v -> In k (Dict.keys d).
Proof.
  intros H. destruct (in_dec string_dec k (Dict.keys d)) as [Hin|Hnin]; [assumption|].
  apply get_None in Hnin. congruence.
Qed.

Lemma keys_set_present d k v :
  In k (Dict.keys d) -> Dict.keys (Dict.set d k v) = Dict.keys d.
Proof.
  induction d as [|[k' v'] d IH]; simpl; intros Hin.
  - contradiction.
  - destruct (String.eqb k' k) eqn:E; simpl; [reflexivity|].
    apply String.eqb_neq in E. destruct Hin as [->|Hin]; [contradiction|].
    now rewrite IH.
Qed.

Lemma keys_set_absent d k v :
  ~ In k (Dict.keys d) -> Dict.keys (Dict.set d k v) = Dict.keys d ++ [k].
Proof.
  induction d as [|[k' v'] d IH]; simpl; intros Hnin.
  - reflexivity.
  - destruct (String.eqb k' k) eqn:E; simpl.
    + apply String.eqb_eq in E. exfalso. apply Hnin. now left.
    + rewrite IH; [reflexivity|]. intros H. apply Hnin. now right.
Qed.

Lemma length_set_present d k v :
  In k (Dict.keys d) -> List.length (Dict.set d k v) = List.length d.
Proof.
  intros Hin. rewrite <- (length_map fst (Dict.set d k v)), <- (length_map fst d).
  change (map fst (Dict.set d k v)) with (Dict.keys (Dict.set d k v)).
  change (map fst d) with (Dict.keys d).
  now rewrite keys_set_present.
Qed.

Lemma set_not_empty d k v : Dict.set d k v <> [].
Proof.
  destruct d as [|[k' v'] d]; simpl; [discriminate|].
  destruct (String.eqb k' k); discriminate.
Qed.

Lemma wf_set d k v : Dict.wf d -> Dict.wf (Dict.set d k v).
Proof.
  unfold Dict.wf. intros Hwf.
  destruct (in_dec string_dec k (Dict.keys d)) as [Hin|Hnin].
  - now rewrite keys_set_present.
  - rewrite keys_set_absent by assumption.
    apply NoDup_rev in Hwf. rewrite <- (rev_involutive (Dict.keys d ++ [k])).
    apply NoDup_rev. rewrite rev_app_distr. simpl. constructor; [|assumption].
    now rewrite <- in_rev.
Qed.

Lemma is_empty_false d : d <> [] -> Dict.is_empty d = false.
Proof. destruct d; [congruence|reflexivity]. Qed.

(** In a dictionary, the item at a position is the one its key looks
    up. *)
Lemma get_nth_error d i k v :
  Dict.wf d -> nth_error d i = Some (k, v) -> Dict.get d k = Some v.
Proof.
  unfold Dict.wf. revert i. induction d as [|[k' v'] d IH]; intros i Hwf Hn.
  - destruct i; discriminate.
  - simpl in Hwf. inversion Hwf as [|? ? Hnin Hwf']; subst.
    destruct i as [|i]; simpl in *.
    + injection Hn as -> ->. now rewrite String.eqb_refl.
    + destruct (String.eqb k' k) eqn:E.
      * apply String.eqb_eq in E. subst k'. exfalso. apply Hnin.
        apply nth_error_In in Hn. apply (in_map fst) in Hn. exact Hn.
      * eapply IH; eassumption.
Qed.

End Facts.
End DictFacts.

(** ** Lists: slices, sortedness, positions *)

Lemma In_firstn (A : Type) (n : nat) (l : list A) (x : A) :
  In x (firstn n l) -> In x l.
Proof.
  revert l. induction n as [|n IH]; intros [|a l]; simpl; try tauto.
  intros [->|H]; [now left|right; now apply IH].
Qed.

Lemma slice_to_firstn (A : Type) (k : Z) (l : list A) :
  exists n, slice_to k l = firstn n l.
Proof. unfold slice_to. destruct (0 <=? k)%Z; eexists; reflexivity. Qed.

Lemma In_slice_to (A : Type) (k : Z) (l : list A) (x : A) :
  In x (slice_to k l) -> In x l.
Proof. destruct (slice_to_firstn k l) as [n ->]. apply In_firstn. Qed.

Lemma length_slice_to (A : Type) (k : Z) (l : list A) :
  (1 <= k)%Z -> List.length (slice_to k l) = Nat.min (Z.to_nat k) (List.length l).
Proof.
  intros Hk. unfold slice_to.
  destruct (0 <=? k)%Z eqn:E; [apply length_firstn|].
  apply Z.leb_gt in E. lia.
Qed.

Lemma StronglySorted_snoc (A : Type) (P : A -> A -> Prop) (l : list A) (a : A) :
  StronglySorted P l -> Forall (fun b => P b a) l -> StronglySorted P (l ++ [a]).
Proof.
  induction 1 as [|b l Hl IH Hb]; intros Hall; simpl.
  - repeat constructor.
  - inversion Hall; subst. constructor.
    + now apply IH.
    + apply Forall_app. split; [assumption|]. now constructor.
Qed.

Lemma StronglySorted_rev (A : Type) (P : A -> A -> Prop) (l : list A) :
  StronglySorted P l -> StronglySorted (fun a b => P b a) (rev l).
Proof.
  induction 1 as [|a l Hl IH Ha]; simpl.
  - constructor.
  - apply StronglySorted_snoc; [assumption|]. now apply Forall_rev.
Qed.

Lemma StronglySorted_firstn (A : Type) (P : A -> A -> Prop) (n : nat) (l : list A) :
  StronglySorted P l -> StronglySorted P (firstn n l).
Proof.
  intros H. revert n. induction H as [|a l Hl IH Ha]; intros [|n]; simpl;
    try constructor.
  - apply IH.
  - rewrite Forall_forall in *. intros x Hx. apply Ha. eapply In_firstn; eassumption.
Qed.

Lemma StronglySorted_slice_to (A : Type) (P : A -> A -> Prop) (k : Z) (l : list A) :
  StronglySorted P l -> StronglySorted P (slice_to k l).
Proof. destruct (slice_to_firstn k l) as [n ->]. apply StronglySorted_firstn. Qed.

Lemma StronglySorted_map_in (A B : Type) (P : A -> A -> Prop) (Q : B -> B -> Prop)
    (f : A -> B) (l : list A) :
  (forall a b, In a l -> In b l -> P a b -> Q (f a) (f b)) ->
  StronglySorted P l -> StronglySorted Q (map f l).
Proof.
  intros Hf H. induction H as [|a l Hl IH Ha]; simpl; constructor.
  - apply IH. intros x y Hx Hy. apply Hf; now right.
  - rewrite Forall_forall in *. intros y Hy.
    apply in_map_iff in Hy. destruct Hy as (x & <- & Hx).
    apply Hf; [now left|now right|now apply Ha].
Qed.

Lemma StronglySorted_nth_error (A : Type) (P : A -> A -> Prop) (l : list A) :
  StronglySorted P l ->
  forall i j a b, i < j -> nth_error l i = Some a -> nth_error l j = Some b -> P a b.
Proof.
  induction 1 as [|x l Hl IH Hx]; intros i j a b Hij Hi Hj.
  - destruct i; discriminate.
  - destruct j as [|j]; [lia|]. simpl in Hj. destruct i as [|i]; simpl in Hi.
    + injection Hi as ->. rewrite Forall_forall in Hx. apply Hx.
      eapply nth_error_In; eassumption.
    + apply (IH i j); [lia|assumption|assumption].
Qed.

Lemma index_of_nth_error (names : list string) (i : nat) (name : string) :
  NoDup names -> nth_error names i = Some name -> index_of name names = Some i.
Proof.
  revert i. induction names as [|n ns IH]; intros i Hnd Hi.
  - destruct i; discriminate.
  - inversion Hnd as [|? ? Hnin Hnd']; subst. destruct i as [|i]; simpl in *.
    + injection Hi as ->. now rewrite String.eqb_refl.
    + destruct (String.eqb n name) eqn:E.
      * apply String.eqb_eq in E. subst n. exfalso. apply Hnin.
        eapply nth_error_In; eassumption.
      * now rewrite (IH i Hnd' Hi).
Qed.

(** ** The stable argsort *)

Section ArgsortStable.

Variable R : Type.
Variable leb : R -> R -> bool.
Hypothesis leb_total : forall a b, leb a b = true \/ leb b a = true.
Hypothesis leb_trans : forall a b c, leb a b = true -> leb b c = true -> leb a c = true.

Lemma insert_index_perm (p : nat * R) (l : list (nat * R)) :
  Permutation (insert_index leb p l) (p :: l).
Proof.
  induction l as [|q l IH]; simpl.
  - reflexivity.
  - destruct (leb (snd p) (snd q)); [reflexivity|].
    rewrite IH. apply perm_swap.
Qed.

Lemma sort_indexed_perm (l : list (nat * R)) : Permutation (sort_indexed leb l) l.
Proof.
  induction l as [|p l IH]; simpl.
  - reflexivity.
  - rewrite insert_index_perm. now constructor.
Qed.

Lemma insert_index_sorted (p : nat * R) (l : list (nat * R)) :
  Forall (fun q => fst p < fst q) l ->
  StronglySorted (pair_le leb) l -> StronglySorted (pair_le leb) (insert_index leb p l).
Proof.
  intros Hlt Hs. induction Hs as [|q l Hl IH Hq]; simpl.
  - repeat constructor.
  - inversion Hlt as [|? ? Hpq Hlt']; subst.
    destruct (leb (snd p) (snd q)) eqn:E.
    + constructor; [now constructor|].
      constructor; [split; [assumption|intros _; assumption]|].
      rewrite Forall_forall in *. intros r Hr. split.
      * eapply leb_trans; [eassumption|]. now apply Hq.
      * intros _. now apply Hlt'.
    + constructor; [now apply IH|].
      rewrite Forall_forall in *. intros r Hr.
      apply (Permutation_in _ (insert_index_perm p l)) in Hr.
      destruct Hr as [<-|Hr]; [|now apply Hq].
      split; [destruct (leb_total (snd p) (snd q)); congruence|congruence].
Qed.

Lemma sort_indexed_sorted (l : list (nat * R)) :
  StronglySorted lt (map fst l) -> StronglySorted (pair_le leb) (sort_indexed leb l).
Proof.
  induction l as [|p l IH]; simpl; intros Hs.
  - constructor.
  - inversion Hs as [|? ? Hl Hp]; subst. apply insert_index_sorted; [|now apply IH].
    rewrite Forall_forall in *. intros q Hq.
    apply (Permutation_in _ (sort_indexed_perm l)) in Hq.
    apply Hp. now apply in_map.
Qed.

Lemma fst_combine_seq (xs : list R) (s : nat) :
  map fst (combine (seq s (List.length xs)) xs) = seq s (List.length xs).
Proof.
  revert s. induction xs as [|x xs IH]; intros s; simpl; [reflexivity|].
  now rewrite IH.
Qed.

Lemma seq_sorted (s n : nat) : StronglySorted lt (seq s n).
Proof.
  revert s. induction n as [|n IH]; intros s; simpl; constructor.
  - apply IH.
  - rewrite Forall_forall. intros x Hx. apply in_seq in Hx. lia.
Qed.

Lemma in_combine_seq (xs : list R) (s i : nat) (x : R) :
  In (i, x) (combine (seq s (List.length xs)) xs) -> nth_error xs (i - s) = Some x /\ s <= i.
Proof.
  revert s. induction xs as [|y xs IH]; intros s; simpl; [tauto|].
  intros [H|H].
  - injection H as <- <-. rewrite Nat.sub_diag. now split.
  - apply IH in H. destruct H as [H Hle].
    replace (i - s) with (S (i - S s)) by lia. simpl. split; [assumption|lia].
Qed.

Lemma argsort_stable_perm (xs : list R) :
  Permutation (argsort_stable leb xs) (seq 0 (List.length xs)).
Proof.
  unfold argsort_stable. rewrite sort_indexed_perm. now rewrite fst_combine_seq.
Qed.

(** The stable argsort sorts ascending and keeps equal entries in index
    order. *)
Lemma argsort_stable_sorted (xs : list R) :
  StronglySorted (stable_le leb xs) (argsort_stable leb xs).
Proof.
  unfold argsort_stable.
  apply StronglySorted_map_in with (P := fun p q =>
    pair_le leb p q /\ nth_error xs (fst p) = Some (snd p) /\ nth_error xs (fst q) = Some (snd q)).
  - intros p q _ _ ((Hle & Hlt) & Hp & Hq). split.
    + intros a b Ha Hb. congruence.
    + intros Hji. apply Hlt. now apply Hji.
  - assert (Hs : StronglySorted (pair_le leb)
                   (sort_indexed leb (combine (seq 0 (List.length xs)) xs))).
    { apply sort_indexed_sorted. rewrite fst_combine_seq. apply seq_sorted. }
    assert (Hin : forall p, In p (sort_indexed leb (combine (seq 0 (List.length xs)) xs)) ->
                            nth_error xs (fst p) = Some (snd p)).
    { intros [i x] Hp. apply (Permutation_in _ (sort_indexed_perm _)) in Hp.
      apply in_combine_seq in Hp. simpl. now rewrite Nat.sub_0_r in Hp. }
    revert Hs Hin. generalize (sort_indexed leb (combine (seq 0 (List.length xs)) xs)).
    intros l Hs. induction Hs as [|p l Hl IH Hp]; intros Hin; constructor.
    + apply IH. intros q Hq. apply Hin. now right.
    + rewrite Forall_forall in *. intros q Hq. repeat split.
      * now apply Hp.
      * now apply Hp.
      * apply Hin. now left.
      * apply Hin. now right.
Qed.

Lemma argsort_stable_spec : argsort_spec leb (argsort_stable leb).
Proof.
  intros xs. split; [apply argsort_stable_perm|].
  rewrite <- (map_id (argsort_stable leb xs)).
  apply StronglySorted_map_in with (P := stable_le leb xs).
  - intros a b _ _ [H _]. exact H.
  - apply argsort_stable_sorted.
Qed.

End ArgsortStable.

(** ** The catalog and its cache *)

Section RouterFacts.

Variable R : Type.
Variable zero : R.
Variable add mul : R -> R -> R.
Variable leb : R -> R -> bool.
Variable embed : string -> list R.
Variable argsort : list R -> list nat.

Local Abbreviation router := (SystemPromptRouter R).
Local Abbreviation find_best := (find_best_prompt zero add mul embed argsort).

Implicit Types (self : router) (lib : Dict.t prompt_data).

Lemma collect_eq lib : collect lib = (descriptions_of lib, Dict.keys lib).
Proof.
  unfold collect, Dict.items, descriptions_of, Dict.keys.
  enough (H : forall (ds ns : list string),
             fold_left
               (fun acc item =>
                  (fst acc ++ [description (snd item)], snd acc ++ [fst item]))
               lib (ds, ns)
             = (ds ++ map (fun item => description (snd item)) lib,
                ns ++ map fst lib)) by apply (H [] []).
  induction lib as [|item lib IH]; intros ds ns; simpl.
  - now rewrite !app_nil_r.
  - rewrite IH. now rewrite <- !app_assoc.
Qed.

Lemma compute_empty self :
  prompt_library self = [] -> _compute_prompt_embeddings embed self = self.
Proof. unfold _compute_prompt_embeddings. now intros ->. Qed.

Lemma compute_nonempty self :
  prompt_library self <> [] ->
  _compute_prompt_embeddings embed self =
  {| openai_model := openai_model self;
     prompt_library := prompt_library self;
     prompt_embeddings := Some (encode embed (descriptions_of (prompt_library self)));
     prompt_names := Dict.keys (prompt_library self) |}.
Proof.
  intros Hne. unfold _compute_prompt_embeddings.
  rewrite DictFacts.is_empty_false by assumption.
  now rewrite collect_eq.
Qed.

Lemma compute_library self :
  prompt_library (_compute_prompt_embeddings embed self) = prompt_library self.
Proof.
  destruct (prompt_library self) as [|item lib] eqn:E.
  - now rewrite compute_empty.
  - rewrite compute_nonempty by (rewrite E; discriminate). simpl. exact E.
Qed.

Lemma add_prompt_library self name d p :
  prompt_library (add_prompt embed self name d p) =
  Dict.set (prompt_library self) name (mk_prompt_data d p).
Proof. unfold add_prompt. now rewrite compute_library. Qed.

Lemma load_prompt_library_library self prompts :
  prompt_library (load_prompt_library embed self prompts) = prompts.
Proof. unfold load_prompt_library. now rewrite compute_library. Qed.

Lemma compute_cache_ok self :
  Dict.wf (prompt_library self) -> cache_ok embed (_compute_prompt_embeddings embed self).
Proof.
  intros Hwf. destruct (prompt_library self) as [|item lib] eqn:E.
  - rewrite compute_empty by assumption. split; [now rewrite E|]. now rewrite E.
  - rewrite compute_nonempty by (rewrite E; discriminate).
    split; simpl; [now rewrite E|]. intros _. now split.
Qed.

Lemma add_prompt_cache_ok self name d p :
  Dict.wf (prompt_library self) -> cache_ok embed (add_prompt embed self name d p).
Proof. intros Hwf. apply compute_cache_ok. simpl. now apply DictFacts.wf_set. Qed.

Lemma load_prompt_library_cache_ok self prompts :
  Dict.wf prompts -> cache_ok embed (load_prompt_library embed self prompts).
Proof. intros Hwf. now apply compute_cache_ok. Qed.

Lemma init_cache_ok model : cache_ok embed (init R model).
Proof. split; simpl; [apply NoDup_nil|]. intros H. exfalso. now apply H. Qed.

(** Every state of a router object has a coherent cache. *)
Lemma reachable_cache_ok self : reachable embed self -> cache_ok embed self.
Proof.
  induction 1 as [model|self name d p _ [Hwf _]|self prompts _ _ Hwf].
  - apply init_cache_ok.
  - now apply add_prompt_cache_ok.
  - now apply load_prompt_library_cache_ok.
Qed.

(** ** The ranking *)

Lemma np_dot_flat_row (M : list (list R)) (q : list R) :
  np_dot_flat zero add mul M [q] = map (fun row => dot zero add mul row q) M.
Proof.
  unfold np_dot_flat. induction M as [|row M IH]; [reflexivity|].
  change (map (fun r => dot zero add mul r q) (row :: M))
    with (dot zero add mul row q :: map (fun r => dot zero add mul r q) M).
  rewrite <- IH. reflexivity.
Qed.

Lemma similarities_eq lib (user_query : string) :
  np_dot_flat zero add mul (encode embed (descriptions_of lib)) (encode embed [user_query])
  = scores zero add mul embed lib user_query.
Proof.
  unfold encode, descriptions_of, scores. simpl. rewrite np_dot_flat_row.
  now rewrite !map_map.
Qed.

Lemma length_scores lib q : List.length (scores zero add mul embed lib q) = List.length lib.
Proof. apply length_map. Qed.

Lemma nth_error_scores lib q idx :
  idx < List.length lib ->
  nth_error (scores zero add mul embed lib q) idx
  = Some (score_of (match_at zero add mul embed lib q idx)).
Proof.
  intros Hlt. unfold scores, match_at, score_of. simpl.
  rewrite nth_error_map.
  now rewrite (nth_error_nth' lib (EmptyString, mk_prompt_data EmptyString EmptyString) Hlt).
Qed.

Lemma nth_error_match_at lib q idx :
  idx < List.length lib ->
  exists data,
    nth_error lib idx = Some (name_of (match_at zero add mul embed lib q idx), data) /\
    score_of (match_at zero add mul embed lib q idx)
      = dot zero add mul (embed (description data)) (embed q) /\
    payload_of (match_at zero add mul embed lib q idx) = system_prompt data.
Proof.
  intros Hlt. unfold match_at, name_of, score_of, payload_of. simpl.
  rewrite (nth_error_nth' lib (EmptyString, mk_prompt_data EmptyString EmptyString) Hlt).
  destruct (nth idx lib _) as [n data]. simpl. now exists data.
Qed.

Section WithArgsort.

Hypothesis argsort_perm :
  forall xs, Permutation (argsort xs) (seq 0 (List.length xs)).

Lemma argsort_in_range (xs : list R) (k : Z) (idx : nat) :
  In idx (slice_to k (rev (argsort xs))) -> idx < List.length xs.
Proof.
  intros H. apply In_slice_to in H. apply in_rev in H.
  apply (Permutation_in _ (argsort_perm xs)) in H. apply in_seq in H. lia.
Qed.

Lemma length_argsort (xs : list R) : List.length (argsort xs) = List.length xs.
Proof. now rewrite (Permutation_length (argsort_perm xs)), length_seq. Qed.

(** On a coherent, non-empty catalog the query returns, and what it
    returns is the tuple of each ranked index. *)
Lemma find_best_prompt_cached self (user_query : string) (top_k : Z) :
  cache_ok embed self -> prompt_library self <> [] ->
  find_best self user_query top_k =
  inr (map (match_at zero add mul embed (prompt_library self) user_query)
           (slice_to top_k
              (rev (argsort (scores zero add mul embed (prompt_library self) user_query))))).
Proof.
  intros [Hwf Hc] Hne. destruct (Hc Hne) as [Hemb Hnames].
  unfold find_best_prompt.
  rewrite DictFacts.is_empty_false by assumption.
  rewrite Hemb, Hnames. cbv zeta. rewrite similarities_eq.
  apply for_each_map. intros idx Hin.
  apply argsort_in_range in Hin. rewrite length_scores in Hin.
  destruct (nth_error_match_at (prompt_library self) user_query Hin)
    as (data & Hnth & Hscore & Hpay).
  unfold list_getitem, Dict.keys. rewrite nth_error_map, Hnth. simpl.
  rewrite (nth_error_scores _ _ Hin). simpl.
  unfold Dict.getitem. erewrite DictFacts.get_nth_error by eassumption. simpl.
  unfold ret. f_equal.
  unfold name_of, score_of, payload_of in *.
  destruct (match_at zero add mul embed (prompt_library self) user_query idx) as [[n s] p].
  simpl in *. now rewrite Hpay.
Qed.

End WithArgsort.

End RouterFacts.

(** ** The ranking returned by [find_best_prompt] *)

Section Ranking.

Variable R : Type.
Variable zero : R.
Variable add mul : R -> R -> R.
Variable leb : R -> R -> bool.
Variable embed : string -> list R.
Variable argsort : list R -> list nat.

Hypothesis argsort_ok : argsort_spec leb argsort.

Local Abbreviation router := (SystemPromptRouter R).
Local Abbreviation find_best := (find_best_prompt zero add mul embed argsort).
Local Abbreviation sims := (scores zero add mul embed).
Local Abbreviation tuple_at := (match_at zero add mul embed).

Implicit Types (self : router).

Lemma argsort_ok_perm (xs : list R) :
  Permutation (argsort xs) (seq 0 (List.length xs)).
Proof. apply argsort_ok. Qed.

(** The ranked indices go down in score. *)
Lemma ranking_sorted (xs : list R) (k : Z) :
  StronglySorted (fun i j => key_le leb xs j i) (slice_to k (rev (argsort xs))).
Proof.
  apply StronglySorted_slice_to, StronglySorted_rev. apply argsort_ok.
Qed.

Lemma find_best_prompt_ranked self (q : string) (k : Z) :
  reachable embed self -> prompt_library self <> [] ->
  find_best self q k =
  inr (map (tuple_at (prompt_library self) q)
           (slice_to k (rev (argsort (sims (prompt_library self) q))))).
Proof.
  intros Hr Hne. apply find_best_prompt_cached;
    [apply argsort_ok_perm|now apply reachable_cache_ok|assumption].
Qed.

(** The tuples of the ranked indices go down in score. *)
Lemma ranked_descending (lib : Dict.t prompt_data) (q : string) (k : Z) :
  descending leb (map (tuple_at lib q) (slice_to k (rev (argsort (sims lib q))))).
Proof.
  unfold descending. rewrite map_map. apply StronglySorted_Sorted.
  eapply StronglySorted_map_in; [|apply ranking_sorted].
  intros a b Ha Hb Hba. cbv beta in Hba. unfold score_ge.
  apply (argsort_in_range _ argsort_ok_perm) in Ha, Hb.
  rewrite length_scores in Ha, Hb.
  apply Hba; now apply nth_error_scores.
Qed.

(** C2. For every non-empty catalog, every query and every [k],
    [find_best_prompt] returns, and the scores of the list it returns
    never increase: each result's score is at least the next one's. *)
Theorem find_best_prompt_scores_nonincreasing self (q : string) (k : Z) :
  reachable embed self -> prompt_library self <> [] ->
  exists res, find_best self q k = inr res /\ descending leb res.
Proof.
  intros Hr Hne. rewrite (find_best_prompt_ranked q k Hr Hne).
  eexists. split; [reflexivity|]. apply ranked_descending.
Qed.

Lemma map_nth_seq (A B : Type) (f : A -> B) (d : A) (l : list A) :
  map (fun i => f (nth i l d)) (seq 0 (List.length l)) = map f l.
Proof.
  induction l as [|a l IH]; simpl; [reflexivity|].
  f_equal. rewrite <- seq_shift, map_map. exact IH.
Qed.

(** C3. For every non-empty catalog of [n] entries, every query and
    every [k >= 1], [find_best_prompt] returns exactly [min k n]
    results; when [k] is at least [n] they are the [n] entries of the
    catalog, each once. *)
Theorem find_best_prompt_length self (q : string) (k : Z) :
  reachable embed self -> prompt_library self <> [] -> (1 <= k)%Z ->
  exists res,
    find_best self q k = inr res /\
    List.length res = Nat.min (Z.to_nat k) (List.length (prompt_library self)) /\
    ((Z.of_nat (List.length (prompt_library self)) <= k)%Z ->
     List.length res = List.length (prompt_library self) /\
     Permutation (map (@name_of R) res) (Dict.keys (prompt_library self))).
Proof.
  intros Hr Hne Hk. rewrite (find_best_prompt_ranked q k Hr Hne).
  eexists. split; [reflexivity|].
  assert (Hlen : List.length
            (slice_to k (rev (argsort (sims (prompt_library self) q))))
          = Nat.min (Z.to_nat k) (List.length (prompt_library self))).
  { rewrite length_slice_to by assumption.
    now rewrite length_rev, (length_argsort _ argsort_ok_perm), length_scores. }
  rewrite length_map. split; [exact Hlen|].
  intros Hall. split; [rewrite Hlen; lia|].
  assert (Hfull : slice_to k (rev (argsort (sims (prompt_library self) q)))
                  = rev (argsort (sims (prompt_library self) q))).
  { unfold slice_to. replace (0 <=? k)%Z with true by (symmetry; apply Z.leb_le; lia).
    apply firstn_all2.
    rewrite length_rev, (length_argsort _ argsort_ok_perm), length_scores. lia. }
  rewrite Hfull, map_map.
  rewrite <- Permutation_rev, (argsort_ok_perm (sims (prompt_library self) q)).
  rewrite length_scores. unfold match_at, name_of. simpl.
  now rewrite (map_nth_seq fst).
Qed.

(** C4. Every tuple [find_best_prompt] returns carries, as its score,
    the inner product of the cached matrix row of its entry with the
    embedding of the query; the row is the embedder's output on the
    entry's description and the query vector is the embedder's output on
    the query, neither of them rescaled. *)
Theorem find_best_prompt_score_is_dot self (q : string) (k : Z) :
  reachable embed self -> prompt_library self <> [] ->
  exists res M,
    find_best self q k = inr res /\
    prompt_embeddings self = Some M /\
    Forall (fun r =>
      exists idx row data,
        nth_error (prompt_names self) idx = Some (name_of r) /\
        nth_error M idx = Some row /\
        score_of r = dot zero add mul row (embed q) /\
        get_prompt_details self (name_of r) = Some data /\
        row = embed (description data) /\
        payload_of r = system_prompt data) res.
Proof.
  intros Hr Hne. rewrite (find_best_prompt_ranked q k Hr Hne).
  destruct (reachable_cache_ok Hr) as [Hwf Hc]. destruct (Hc Hne) as [Hemb Hnames].
  eexists. eexists. split; [reflexivity|]. split; [exact Hemb|].
  rewrite Forall_forall. intros r Hin.
  apply in_map_iff in Hin. destruct Hin as (idx & <- & Hin).
  apply (argsort_in_range _ argsort_ok_perm) in Hin. rewrite length_scores in Hin.
  destruct (nth_error_match_at zero add mul embed (prompt_library self) q Hin)
    as (data & Hnth & Hscore & Hpay).
  exists idx, (embed (description data)), data. repeat split.
  - rewrite Hnames. unfold Dict.keys. now rewrite nth_error_map, Hnth.
  - unfold encode, descriptions_of. now rewrite map_map, nth_error_map, Hnth.
  - exact Hscore.
  - unfold get_prompt_details. eapply DictFacts.get_nth_error; eassumption.
  - exact Hpay.
Qed.

End Ranking.

(** ** The order of the results is the reversed argsort *)

Section ResultOrder.

Variable R : Type.
Variable zero : R.
Variable add mul : R -> R -> R.
Variable leb : R -> R -> bool.
Variable embed : string -> list R.
Variable argsort : list R -> list nat.

Hypothesis argsort_ok : argsort_spec leb argsort.

Local Abbreviation router := (SystemPromptRouter R).
Local Abbreviation sims := (scores zero add mul embed).
Local Abbreviation tuple_at := (match_at zero add mul embed).

Implicit Types (self : router).

(** C1, as the code has it. For every non-empty catalog, every query
    and every [k], the list [find_best_prompt] returns is sorted by
    descending score, and its order is the reverse of the order in
    which [np.argsort] lists the entries' indices for the similarities:
    the code adds no tie-break of its own, so entries of equal score
    come as the sort left them, which need not be insertion order. *)
Theorem find_best_prompt_descending_reversed_argsort self (q : string) (k : Z) :
  reachable embed self -> prompt_library self <> [] ->
  exists res M,
    find_best_prompt zero add mul embed argsort self q k = inr res /\
    prompt_embeddings self = Some M /\
    descending leb res /\
    reverses_order (prompt_names self)
      (argsort (np_dot_flat zero add mul M (encode embed [q]))) res.
Proof.
  intros Hr Hne.
  rewrite (@find_best_prompt_ranked R zero add mul leb embed argsort argsort_ok
             self q k Hr Hne).
  destruct (reachable_cache_ok Hr) as [Hwf Hc]. destruct (Hc Hne) as [Hemb Hnames].
  eexists. exists (encode embed (descriptions_of (prompt_library self))).
  split; [reflexivity|]. split; [exact Hemb|].
  split; [apply (@ranked_descending R zero add mul leb embed argsort argsort_ok)|].
  rewrite similarities_eq.
  set (lib := prompt_library self) in *.
  assert (Hperm : Permutation (argsort (sims lib q)) (seq 0 (List.length (sims lib q))))
    by apply argsort_ok.
  remember (argsort (sims lib q)) as A eqn:EA.
  intros i j ri rj Hij Hi Hj.
  rewrite nth_error_map in Hi, Hj.
  destruct (slice_to_firstn k (rev A)) as [n Hn]. rewrite Hn in Hi, Hj.
  rewrite nth_error_firstn, nth_error_rev in Hi, Hj.
  destruct (Nat.ltb i n); [|discriminate]. destruct (Nat.ltb j n); [|discriminate].
  destruct (Nat.ltb i (List.length A)) eqn:Ei; [|discriminate].
  destruct (Nat.ltb j (List.length A)) eqn:Ej; [|discriminate].
  apply Nat.ltb_lt in Ei, Ej.
  destruct (nth_error A (List.length A - S i)) as [a|] eqn:Ea; [|discriminate].
  destruct (nth_error A (List.length A - S j)) as [b|] eqn:Eb; [|discriminate].
  simpl in Hi, Hj. injection Hi as <-. injection Hj as <-.
  assert (Hrange : forall x p, nth_error A p = Some x -> x < List.length lib).
  { intros x p Hx. apply nth_error_In in Hx.
    apply (Permutation_in _ Hperm) in Hx. apply in_seq in Hx.
    rewrite length_scores in Hx. lia. }
  assert (Hidx : forall idx, idx < List.length lib ->
            index_of (name_of (tuple_at lib q idx)) (prompt_names self) = Some idx).
  { intros idx Hidx. rewrite Hnames. apply index_of_nth_error; [exact Hwf|].
    destruct (nth_error_match_at zero add mul embed lib q Hidx) as (data & Hnth & _).
    unfold Dict.keys. now rewrite nth_error_map, Hnth. }
  exists a, b, (List.length A - S i), (List.length A - S j).
  split; [apply Hidx; eapply Hrange; eassumption|].
  split; [apply Hidx; eapply Hrange; eassumption|].
  split; [exact Ea|]. split; [exact Eb|]. lia.
Qed.

End ResultOrder.

(** ** Errors, mutations and lookups *)

Section Catalog.

Variable R : Type.
Variable zero : R.
Variable add mul : R -> R -> R.
Variable leb : R -> R -> bool.
Variable embed : string -> list R.
Variable argsort : list R -> list nat.
Variable chat_create : string -> string -> string -> result completion.

Local Abbreviation router := (SystemPromptRouter R).
Local Abbreviation find_best := (find_best_prompt zero add mul embed argsort).

Implicit Types (self : router).

Lemma find_best_prompt_empty self (q : string) (k : Z) :
  prompt_library self = [] -> find_best self q k = inl no_prompts_loaded.
Proof. intros H. unfold find_best_prompt. now rewrite H. Qed.

(** C5. On an empty catalog [find_best_prompt] raises the no-prompts
    error, whatever the query and [k]; on a non-empty catalog whose
    embeddings have been computed it never raises that error. *)
Theorem find_best_prompt_empty_catalog_error self (q : string) (k : Z) :
  (prompt_library self = [] -> find_best self q k = inl no_prompts_loaded) /\
  (prompt_library self <> [] -> prompt_embeddings self <> None ->
   find_best self q k <> inl no_prompts_loaded).
Proof.
  split; [apply find_best_prompt_empty|].
  intros Hne Hemb. unfold find_best_prompt.
  rewrite DictFacts.is_empty_false by assumption.
  destruct (prompt_embeddings self) as [M|]; [|congruence].
  cbv zeta. intros Hraise. apply for_each_raises in Hraise.
  destruct Hraise as (idx & _ & Hidx).
  unfold list_getitem, Dict.getitem in Hidx.
  destruct (nth_error (prompt_names self) idx) as [name|]; simpl in Hidx;
    [|discriminate].
  destruct (nth_error _ idx) as [score|]; simpl in Hidx; [|discriminate].
  destruct (Dict.get (prompt_library self) name); simpl in Hidx; discriminate.
Qed.

Lemma cache_ok_aligned self :
  cache_ok embed self -> prompt_library self <> [] -> cache_aligned embed self.
Proof.
  intros [Hwf Hc] Hne. destruct (Hc Hne) as [Hemb Hnames].
  exists (encode embed (descriptions_of (prompt_library self))).
  split; [exact Hemb|]. split; [reflexivity|].
  split; [unfold encode, descriptions_of; now rewrite !length_map|].
  split; [rewrite Hnames; apply length_map|].
  split; [exact Hnames|].
  intros i name Hi. rewrite Hnames in Hi. unfold Dict.keys in Hi.
  rewrite nth_error_map in Hi.
  destruct (nth_error (prompt_library self) i) as [[n data]|] eqn:E; [|discriminate].
  simpl in Hi. injection Hi as ->. exists data. split.
  - eapply DictFacts.get_nth_error; eassumption.
  - unfold encode, descriptions_of. now rewrite map_map, nth_error_map, E.
Qed.

Lemma load_empty_keeps_cache self :
  prompt_library (load_prompt_library embed self []) = [] /\
  prompt_embeddings (load_prompt_library embed self []) = prompt_embeddings self /\
  prompt_names (load_prompt_library embed self []) = prompt_names self.
Proof. unfold load_prompt_library. rewrite compute_empty by reflexivity. now simpl. Qed.

(** C6, as the code has it. After [add_prompt], and after
    [load_prompt_library] of a non-empty dictionary, the cached matrix is
    the encoding of the whole new catalog: one row per entry, row [i]
    the embedding of the description stored under the [i]-th name.
    [load_prompt_library] of an empty dictionary leaves the previous
    matrix and name list in place. *)
Theorem mutation_recomputes_cache self :
  reachable embed self ->
  (forall name d p, cache_aligned embed (add_prompt embed self name d p)) /\
  (forall prompts, Dict.wf prompts -> prompts <> [] ->
     cache_aligned embed (load_prompt_library embed self prompts)) /\
  (prompt_library (load_prompt_library embed self []) = [] /\
   prompt_embeddings (load_prompt_library embed self []) = prompt_embeddings self /\
   prompt_names (load_prompt_library embed self []) = prompt_names self).
Proof.
  intros Hr. split; [|split].
  - intros name d p. apply cache_ok_aligned.
    + apply reachable_cache_ok. now constructor.
    + rewrite add_prompt_library. apply DictFacts.set_not_empty.
  - intros prompts Hwf Hne. apply cache_ok_aligned.
    + now apply load_prompt_library_cache_ok.
    + now rewrite load_prompt_library_library.
  - apply load_empty_keeps_cache.
Qed.

(** C7. [add_prompt] on a name already in the catalog returns without
    an error, keeps the catalog's size and key order, stores the new
    description and system prompt under the name, and recomputes the
    cache from the new catalog; afterwards [get_prompt_details] gives the
    new entry, and every tuple [find_best_prompt] returns for that name
    carries the new system prompt and a score computed from the new
    description. *)
Theorem add_prompt_overwrites self (name d p : string) (old : prompt_data) :
  argsort_spec leb argsort ->
  reachable embed self ->
  get_prompt_details self name = Some old ->
  List.length (prompt_library (add_prompt embed self name d p))
    = List.length (prompt_library self) /\
  Dict.keys (prompt_library (add_prompt embed self name d p))
    = Dict.keys (prompt_library self) /\
  get_prompt_details (add_prompt embed self name d p) name
    = Some (mk_prompt_data d p) /\
  cache_aligned embed (add_prompt embed self name d p) /\
  forall (q : string) (k : Z),
    exists res,
      find_best (add_prompt embed self name d p) q k = inr res /\
      forall r, In r res -> name_of r = name ->
        payload_of r = p /\
        score_of r = dot zero add mul (embed d) (embed q).
Proof.
  intros Hspec Hr Hold.
  assert (Hin : In name (Dict.keys (prompt_library self)))
    by (eapply DictFacts.get_Some_in; exact Hold).
  assert (Hr' : reachable embed (add_prompt embed self name d p))
    by now constructor.
  assert (Hne : prompt_library (add_prompt embed self name d p) <> [])
    by (rewrite add_prompt_library; apply DictFacts.set_not_empty).
  assert (Hget : get_prompt_details (add_prompt embed self name d p) name
                 = Some (mk_prompt_data d p)).
  { unfold get_prompt_details. rewrite add_prompt_library.
    apply DictFacts.get_set_eq. }
  split; [rewrite add_prompt_library; now apply DictFacts.length_set_present|].
  split; [rewrite add_prompt_library; now apply DictFacts.keys_set_present|].
  split; [exact Hget|].
  split; [apply cache_ok_aligned; [now apply reachable_cache_ok|exact Hne]|].
  intros q k.
  rewrite (@find_best_prompt_ranked R zero add mul leb embed argsort Hspec _ q k Hr' Hne).
  eexists. split; [reflexivity|].
  intros r Hr_in Hname. apply in_map_iff in Hr_in. destruct Hr_in as (idx & <- & Hidx).
  assert (Hperm : forall xs, Permutation (argsort xs) (seq 0 (List.length xs)))
    by (intros xs; apply Hspec).
  apply (argsort_in_range _ Hperm) in Hidx. rewrite length_scores in Hidx.
  destruct (nth_error_match_at zero add mul embed _ q Hidx) as (data & Hnth & Hscore & Hpay).
  rewrite Hname in Hnth.
  destruct (reachable_cache_ok Hr') as [Hwf _].
  pose proof (@DictFacts.get_nth_error _ _ _ _ _ Hwf Hnth) as Hdata.
  unfold get_prompt_details in Hget. rewrite Hget in Hdata. injection Hdata as <-.
  now split.
Qed.

(** C8. [get_prompt_details] is a plain lookup that gives [None] for
    every name the current catalog does not hold; in particular for a
    name held by the catalog that [load_prompt_library] has replaced by
    one without it. *)
Theorem get_prompt_details_absent self (name : string) :
  (~ In name (Dict.keys (prompt_library self)) ->
   get_prompt_details self name = None) /\
  (forall prompts,
     In name (Dict.keys (prompt_library self)) ->
     ~ In name (Dict.keys prompts) ->
     get_prompt_details (load_prompt_library embed self prompts) name = None).
Proof.
  split.
  - intros Hnin. unfold get_prompt_details. now apply DictFacts.get_None.
  - intros prompts _ Hnin. unfold get_prompt_details.
    rewrite load_prompt_library_library. now apply DictFacts.get_None.
Qed.

(** C9. Once the system prompt is chosen, a failure of the chat
    completion call is caught: [generate_response] returns a dictionary
    with the message of the exception under [error], and with the
    matched prompt, the similarity score and the system prompt used. *)
Theorem generate_response_catches_failure self (q : string) (use_best : bool)
    (custom : option string) (matched : string) (score : option R)
    (sp : string) (e : exn) :
  select_system_prompt zero add mul embed argsort self q use_best custom
    = inr (matched, score, sp) ->
  chat_create (openai_model self) sp q = inl e ->
  generate_response zero add mul embed argsort chat_create self q use_best custom
  = inr [("error", VStr R (str_exn e));
         ("matched_prompt", VStr R matched);
         ("similarity_score", opt_float score);
         ("system_prompt_used", VStr R sp)].
Proof.
  intros Hsel Hcall. unfold generate_response. rewrite Hsel. simpl.
  unfold try_body. rewrite Hcall. reflexivity.
Qed.

(** C10. [load_prompt_library] of an empty dictionary on a router whose
    catalog was non-empty keeps the matrix and the name list computed
    for the old catalog, and every later [find_best_prompt] raises the
    no-prompts error all the same: the test on the catalog comes first. *)
Theorem load_empty_keeps_stale_cache self :
  reachable embed self -> prompt_library self <> [] ->
  prompt_library (load_prompt_library embed self []) = [] /\
  prompt_embeddings (load_prompt_library embed self []) = prompt_embeddings self /\
  prompt_names (load_prompt_library embed self []) = prompt_names self /\
  prompt_embeddings (load_prompt_library embed self [])
    = Some (encode embed (descriptions_of (prompt_library self))) /\
  prompt_names (load_prompt_library embed self [])
    = Dict.keys (prompt_library self) /\
  prompt_names (load_prompt_library embed self []) <> [] /\
  forall (q : string) (k : Z),
    find_best (load_prompt_library embed self []) q k = inl no_prompts_loaded.
Proof.
  intros Hr Hne. destruct (load_empty_keeps_cache self) as (Hlib & Hemb & Hnames).
  destruct (reachable_cache_ok Hr) as [_ Hc]. destruct (Hc Hne) as [Hemb0 Hnames0].
  split; [exact Hlib|]. split; [exact Hemb|]. split; [exact Hnames|].
  split; [congruence|]. split; [congruence|].
  split.
  - rewrite Hnames, Hnames0. destruct (prompt_library self); [congruence|discriminate].
  - intros q k. now apply find_best_prompt_empty.
Qed.

End Catalog.

(** ** The sample instance *)

Module SampleFacts.

Lemma Zleb_total (a b : Z) : (a <=? b)%Z = true \/ (b <=? a)%Z = true.
Proof. rewrite !Z.leb_le. lia. Qed.

Lemma Zleb_trans (a b c : Z) :
  (a <=? b)%Z = true -> (b <=? c)%Z = true -> (a <=? c)%Z = true.
Proof. rewrite !Z.leb_le. lia. Qed.

Lemma argsort_ok : argsort_spec Z.leb Sample.argsort.
Proof. exact (@argsort_stable_spec Z Z.leb Zleb_total Zleb_trans). Qed.

Lemma empty_reachable : reachable Sample.embed Sample.empty_router.
Proof. constructor. Qed.

Lemma pets_reachable : reachable Sample.embed Sample.pets.
Proof. unfold Sample.pets. repeat constructor. Qed.

Lemma two_reachable : reachable Sample.embed Sample.two.
Proof.
  unfold Sample.two. constructor; [constructor|].
  unfold Dict.wf. simpl. repeat constructor; simpl; intuition discriminate.
Qed.

Lemma pets_not_empty : prompt_library Sample.pets <> [].
Proof. intros H. vm_compute in H. discriminate H. Qed.

Lemma two_not_empty : prompt_library Sample.two <> [].
Proof. intros H. vm_compute in H. discriminate H. Qed.

(** The sample runs: the tie, the ranking of two entries, a [k] beyond
    the catalog, a negative [k], the empty catalog. *)
Example pets_top1 : Sample.find Sample.pets "pets" 1 = inr [("b", 17%Z, "PB")].
Proof. reflexivity. Qed.

Example two_top5 :
  Sample.find Sample.two "how do I write a sort function" 5
  = inr [("cooking", 511%Z, "You are a cooking assistant.");
         ("code", 481%Z, "You are a coding assistant.")].
Proof. reflexivity. Qed.

Example two_all_but_last :
  Sample.find Sample.two "how do I write a sort function" (-1)
  = inr [("cooking", 511%Z, "You are a cooking assistant.")].
Proof. reflexivity. Qed.

Example empty_raises :
  Sample.find Sample.empty_router "anything" 1 = inl no_prompts_loaded.
Proof. reflexivity. Qed.

End SampleFacts.

(** ** The claims on the sample instance *)

(** C1, as stated, fails: two entries of equal score come out with the
    one inserted last first. *)
Lemma find_best_prompt_ties_counterexample :
  argsort_spec Z.leb Sample.argsort /\
  reachable Sample.embed Sample.pets /\
  prompt_names Sample.pets = ["a"; "b"] /\
  Sample.find Sample.pets "pets" 2 = inr [("b", 17%Z, "PB"); ("a", 17%Z, "PA")] /\
  ~ ties_first_inserted Z.leb (prompt_names Sample.pets)
      [("b", 17%Z, "PB"); ("a", 17%Z, "PA")].
Proof.
  split; [exact SampleFacts.argsort_ok|].
  split; [exact SampleFacts.pets_reachable|].
  split; [reflexivity|]. split; [reflexivity|].
  intros H.
  destruct (H 0 1 ("b", 17%Z, "PB") ("a", 17%Z, "PA") (Nat.lt_0_succ 0)
              eq_refl eq_refl (conj eq_refl eq_refl))
    as (a & b & Ha & Hb & Hlt).
  vm_compute in Ha, Hb. injection Ha as <-. injection Hb as <-. lia.
Qed.

Lemma find_best_prompt_descending_reversed_argsort_witness :
  exists res M,
    find_best_prompt 0%Z Z.add Z.mul Sample.embed Sample.argsort
      Sample.pets "pets" 2 = inr res /\
    prompt_embeddings Sample.pets = Some M /\
    descending Z.leb res /\
    reverses_order (prompt_names Sample.pets)
      (Sample.argsort (np_dot_flat 0%Z Z.add Z.mul M (encode Sample.embed ["pets"])))
      res.
Proof.
  exact (@find_best_prompt_descending_reversed_argsort Z 0%Z Z.add Z.mul Z.leb
           Sample.embed Sample.argsort SampleFacts.argsort_ok
           Sample.pets "pets" 2%Z
           SampleFacts.pets_reachable SampleFacts.pets_not_empty).
Defined.

Lemma find_best_prompt_scores_nonincreasing_witness :
  exists res,
    find_best_prompt 0%Z Z.add Z.mul Sample.embed Sample.argsort
      Sample.two "how do I write a sort function" 2 = inr res /\
    descending Z.leb res.
Proof.
  exact (@find_best_prompt_scores_nonincreasing Z 0%Z Z.add Z.mul Z.leb
           Sample.embed Sample.argsort SampleFacts.argsort_ok
           Sample.two "how do I write a sort function" 2%Z
           SampleFacts.two_reachable SampleFacts.two_not_empty).
Defined.

Lemma find_best_prompt_length_witness :
  exists res,
    find_best_prompt 0%Z Z.add Z.mul Sample.embed Sample.argsort
      Sample.two "how do I write a sort function" 5 = inr res /\
    List.length res = Nat.min (Z.to_nat 5) (List.length (prompt_library Sample.two)) /\
    ((Z.of_nat (List.length (prompt_library Sample.two)) <= 5)%Z ->
     List.length res = List.length (prompt_library Sample.two) /\
     Permutation (map (@name_of Z) res) (Dict.keys (prompt_library Sample.two))).
Proof.
  apply (@find_best_prompt_length Z 0%Z Z.add Z.mul Z.leb
           Sample.embed Sample.argsort SampleFacts.argsort_ok
           Sample.two "how do I write a sort function" 5%Z
           SampleFacts.two_reachable SampleFacts.two_not_empty).
  lia.
Defined.

Lemma find_best_prompt_score_is_dot_witness :
  exists res M,
    find_best_prompt 0%Z Z.add Z.mul Sample.embed Sample.argsort
      Sample.two "how do I write a sort function" 1 = inr res /\
    prompt_embeddings Sample.two = Some M /\
    Forall (fun r =>
      exists idx row data,
        nth_error (prompt_names Sample.two) idx = Some (name_of r) /\
        nth_error M idx = Some row /\
        score_of r
          = dot 0%Z Z.add Z.mul row (Sample.embed "how do I write a sort function") /\
        get_prompt_details Sample.two (name_of r) = Some data /\
        row = Sample.embed (description data) /\
        payload_of r = system_prompt data) res.
Proof.
  exact (@find_best_prompt_score_is_dot Z 0%Z Z.add Z.mul Z.leb
           Sample.embed Sample.argsort SampleFacts.argsort_ok
           Sample.two "how do I write a sort function" 1%Z
           SampleFacts.two_reachable SampleFacts.two_not_empty).
Defined.

Lemma find_best_prompt_empty_catalog_error_witness :
  Sample.find Sample.empty_router "anything" 3 = inl no_prompts_loaded /\
  Sample.find Sample.two "anything" 3 <> inl no_prompts_loaded.
Proof.
  split.
  - apply (@find_best_prompt_empty_catalog_error Z 0%Z Z.add Z.mul
             Sample.embed Sample.argsort Sample.empty_router "anything" 3%Z).
    reflexivity.
  - apply (@find_best_prompt_empty_catalog_error Z 0%Z Z.add Z.mul
             Sample.embed Sample.argsort Sample.two "anything" 3%Z).
    + exact SampleFacts.two_not_empty.
    + intros H. vm_compute in H. discriminate H.
Defined.

(** C6, as stated, fails: after a load of the empty dictionary the
    catalog is empty and the matrix still has the two old rows. *)
Lemma load_empty_cache_counterexample :
  reachable Sample.embed (load_prompt_library Sample.embed Sample.two []) /\
  prompt_library (load_prompt_library Sample.embed Sample.two []) = [] /\
  prompt_embeddings (load_prompt_library Sample.embed Sample.two [])
    = Some [[16%Z; 1%Z]; [17%Z; 1%Z]] /\
  prompt_names (load_prompt_library Sample.embed Sample.two []) = ["code"; "cooking"] /\
  ~ cache_aligned Sample.embed (load_prompt_library Sample.embed Sample.two []).
Proof.
  split.
  { constructor; [exact SampleFacts.two_reachable|]. apply NoDup_nil. }
  split; [reflexivity|]. split; [reflexivity|]. split; [reflexivity|].
  intros (M & Hemb & _ & Hlen & _).
  vm_compute in Hemb. injection Hemb as <-. vm_compute in Hlen. discriminate Hlen.
Qed.

Lemma mutation_recomputes_cache_witness :
  (forall name d p, cache_aligned Sample.embed (add_prompt Sample.embed Sample.two name d p)) /\
  (forall prompts, Dict.wf prompts -> prompts <> [] ->
     cache_aligned Sample.embed (load_prompt_library Sample.embed Sample.two prompts)) /\
  (prompt_library (load_prompt_library Sample.embed Sample.two []) = [] /\
   prompt_embeddings (load_prompt_library Sample.embed Sample.two [])
     = prompt_embeddings Sample.two /\
   prompt_names (load_prompt_library Sample.embed Sample.two [])
     = prompt_names Sample.two).
Proof.
  exact (@mutation_recomputes_cache Z Sample.embed Sample.two SampleFacts.two_reachable).
Defined.

Lemma add_prompt_overwrites_witness :
  List.length (prompt_library (add_prompt Sample.embed Sample.two "code" "d" "NEW"))
    = List.length (prompt_library Sample.two) /\
  Dict.keys (prompt_library (add_prompt Sample.embed Sample.two "code" "d" "NEW"))
    = Dict.keys (prompt_library Sample.two) /\
  get_prompt_details (add_prompt Sample.embed Sample.two "code" "d" "NEW") "code"
    = Some (mk_prompt_data "d" "NEW") /\
  cache_aligned Sample.embed (add_prompt Sample.embed Sample.two "code" "d" "NEW") /\
  forall (q : string) (k : Z),
    exists res,
      find_best_prompt 0%Z Z.add Z.mul Sample.embed Sample.argsort
        (add_prompt Sample.embed Sample.two "code" "d" "NEW") q k = inr res /\
      forall r, In r res -> name_of r = "code" ->
        payload_of r = "NEW" /\
        score_of r = dot 0%Z Z.add Z.mul (Sample.embed "d") (Sample.embed q).
Proof.
  apply (@add_prompt_overwrites Z 0%Z Z.add Z.mul Z.leb Sample.embed Sample.argsort
           Sample.two "code" "d" "NEW"
           (mk_prompt_data "programming help" "You are a coding assistant.")).
  - exact SampleFacts.argsort_ok.
  - exact SampleFacts.two_reachable.
  - reflexivity.
Defined.

Lemma get_prompt_details_absent_witness :
  get_prompt_details Sample.two "nonexistent" = None /\
  get_prompt_details
    (load_prompt_library Sample.embed Sample.two
       [("poetry", mk_prompt_data "verse" "You are a poet.")]) "code" = None.
Proof.
  split.
  - apply (@get_prompt_details_absent Z Sample.embed Sample.two "nonexistent").
    simpl. intuition discriminate.
  - apply (@get_prompt_details_absent Z Sample.embed Sample.two "code").
    + simpl. now left.
    + simpl. intuition discriminate.
Defined.

Lemma generate_response_catches_failure_witness :
  generate_response 0%Z Z.add Z.mul Sample.embed Sample.argsort Sample.chat_fail
    Sample.pets "pets" true None
  = inr [("error", VStr Z "API Error");
         ("matched_prompt", VStr Z "b");
         ("similarity_score", VFloat 17%Z);
         ("system_prompt_used", VStr Z "PB")].
Proof.
  apply (@generate_response_catches_failure Z 0%Z Z.add Z.mul Sample.embed
           Sample.argsort Sample.chat_fail Sample.pets "pets" true None
           "b" (Some 17%Z) "PB" (Exception "API Error")).
  - reflexivity.
  - reflexivity.
Defined.

Lemma load_empty_keeps_stale_cache_witness :
  prompt_library (load_prompt_library Sample.embed Sample.two []) = [] /\
  prompt_embeddings (load_prompt_library Sample.embed Sample.two [])
    = prompt_embeddings Sample.two /\
  prompt_names (load_prompt_library Sample.embed Sample.two [])
    = prompt_names Sample.two /\
  prompt_embeddings (load_prompt_library Sample.embed Sample.two [])
    = Some (encode Sample.embed (descriptions_of (prompt_library Sample.two))) /\
  prompt_names (load_prompt_library Sample.embed Sample.two [])
    = Dict.keys (prompt_library Sample.two) /\
  prompt_names (load_prompt_library Sample.embed Sample.two []) <> [] /\
  forall (q : string) (k : Z),
    find_best_prompt 0%Z Z.add Z.mul Sample.embed Sample.argsort
      (load_prompt_library Sample.embed Sample.two []) q k = inl no_prompts_loaded.
Proof.
  exact (@load_empty_keeps_stale_cache Z 0%Z Z.add Z.mul Sample.embed Sample.argsort
           Sample.two SampleFacts.two_reachable SampleFacts.two_not_empty).
Defined.

(** * Further properties of the router and of its neighbours *)

(** ** Dictionaries, continued *)

Module DictMore.
Section Facts.

Variable V : Type.
Implicit Types (d : Dict.t V) (k : string) (v : V).

Lemma set_absent d k v :
  ~ In k (Dict.keys d) -> Dict.set d k v = d ++ [(k, v)].
Proof.
  induction d as [|[k' v'] d IH]; simpl; intros Hnin.
  - reflexivity.
  - destruct (String.eqb k' k) eqn:E.
    + apply String.eqb_eq in E. exfalso. apply Hnin. now left.
    + rewrite IH; [reflexivity|]. intros H. apply Hnin. now right.
Qed.

Lemma get_Some_nth_error d k v :
  Dict.get d k = Some v -> exists i, nth_error d i = Some (k, v).
Proof.
  induction d as [|[k' v'] d IH]; simpl; intros H.
  - discriminate.
  - destruct (String.eqb k' k) eqn:E.
    + apply String.eqb_eq in E. injection H as ->. subst k'. now exists 0.
    + destruct (IH H) as [i Hi]. now exists (S i).
Qed.

Lemma get_app_absent d d' k :
  ~ In k (Dict.keys d) -> Dict.get (d ++ d') k = Dict.get d' k.
Proof.
  induction d as [|[k' v'] d IH]; simpl; intros Hnin.
  - reflexivity.
  - destruct (String.eqb k' k) eqn:E.
    + apply String.eqb_eq in E. exfalso. apply Hnin. now left.
    + apply IH. intros H. apply Hnin. now right.
Qed.

End Facts.
End DictMore.

(** ** The catalog store *)

Section CatalogMore.

Variable R : Type.
Variable embed : string -> list R.

Local Abbreviation router := (SystemPromptRouter R).

Implicit Types (self : router).

Lemma add_prompt_fresh_cache self (name d p : string) :
  add_prompt embed self name d p =
  fresh_cache embed (openai_model self)
    (Dict.set (prompt_library self) name (mk_prompt_data d p)).
Proof.
  unfold add_prompt. rewrite compute_nonempty; [reflexivity|].
  simpl. apply DictFacts.set_not_empty.
Qed.

Lemma load_fresh_cache self (prompts : Dict.t prompt_data) :
  prompts <> [] ->
  load_prompt_library embed self prompts
  = fresh_cache embed (openai_model self) prompts.
Proof.
  intros Hne. unfold load_prompt_library. now rewrite compute_nonempty.
Qed.

(** X1. What [add_prompt] stores under a name is what
    [get_prompt_details] gives back for it, whether the name is new or
    not, and no other name's entry changes. *)
Theorem add_prompt_lookup self (name d p : string) :
  get_prompt_details (add_prompt embed self name d p) name
    = Some (mk_prompt_data d p) /\
  forall other, other <> name ->
    get_prompt_details (add_prompt embed self name d p) other
    = get_prompt_details self other.
Proof.
  unfold get_prompt_details. rewrite add_prompt_library. split.
  - apply DictFacts.get_set_eq.
  - intros other Hne. apply DictFacts.get_set_neq. congruence.
Qed.

(** X2. [add_prompt] with a name the catalog does not hold appends: the
    entry goes last in the catalog, its name last in the name list and
    its embedding is the last row of the matrix, after the rows of the
    entries already there. *)
Theorem add_prompt_fresh_appends self (name d p : string) :
  get_prompt_details self name = None ->
  prompt_library (add_prompt embed self name d p)
    = prompt_library self ++ [(name, mk_prompt_data d p)] /\
  prompt_names (add_prompt embed self name d p)
    = Dict.keys (prompt_library self) ++ [name] /\
  prompt_embeddings (add_prompt embed self name d p)
    = Some (encode embed (descriptions_of (prompt_library self)) ++ [embed d]).
Proof.
  intros Hnone. apply DictFacts.get_None in Hnone.
  rewrite add_prompt_fresh_cache. simpl.
  rewrite DictMore.set_absent by assumption.
  unfold Dict.keys, encode, descriptions_of. rewrite !map_app. simpl.
  repeat split; reflexivity.
Qed.

(** X3. [list_prompts] has the catalog's names in the catalog's order
    and maps each to the description [get_prompt_details] reports for
    it. *)
Theorem list_prompts_lookup self (name : string) :
  Dict.keys (list_prompts self) = Dict.keys (prompt_library self) /\
  Dict.get (list_prompts self) name
    = option_map description (get_prompt_details self name).
Proof.
  unfold list_prompts, get_prompt_details, Dict.items, Dict.keys. split.
  - now rewrite map_map.
  - induction (prompt_library self) as [|[k v] lib IH]; simpl; [reflexivity|].
    destruct (String.eqb k name); [reflexivity|exact IH].
Qed.

(** X4. For a given router, the catalog, the name list and the matrix
    that [load_prompt_library] of a non-empty dictionary leaves do not
    depend on what the router held before: they are the dictionary, its
    keys and the encoding of its descriptions, so the load gives the same
    three from any two states of the router. *)
Theorem load_prompt_library_forgets self1 self2 (prompts : Dict.t prompt_data) :
  prompts <> [] ->
  prompt_library (load_prompt_library embed self1 prompts)
    = prompt_library (load_prompt_library embed self2 prompts) /\
  prompt_names (load_prompt_library embed self1 prompts)
    = prompt_names (load_prompt_library embed self2 prompts) /\
  prompt_embeddings (load_prompt_library embed self1 prompts)
    = prompt_embeddings (load_prompt_library embed self2 prompts) /\
  prompt_library (load_prompt_library embed self1 prompts) = prompts /\
  prompt_names (load_prompt_library embed self1 prompts) = Dict.keys prompts /\
  prompt_embeddings (load_prompt_library embed self1 prompts)
    = Some (encode embed (descriptions_of prompts)).
Proof.
  intros Hne. rewrite !load_fresh_cache by assumption. simpl.
  repeat split; reflexivity.
Qed.

Lemma add_prompts_fresh_cache (entries : list (string * prompt_data)) :
  forall self,
    NoDup (Dict.keys (prompt_library self ++ entries)) -> entries <> [] ->
    add_prompts embed self entries
    = fresh_cache embed (openai_model self) (prompt_library self ++ entries).
Proof.
  induction entries as [|[k [d p]] entries IH]; intros self Hnd Hne.
  - congruence.
  - unfold add_prompts. simpl fold_left.
    fold (add_prompts embed (add_prompt embed self k d p) entries).
    assert (Hk : ~ In k (Dict.keys (prompt_library self))).
    { unfold Dict.keys in *. rewrite map_app in Hnd. simpl in Hnd.
      apply NoDup_remove_2 in Hnd. intros H. apply Hnd. apply in_or_app. now left. }
    rewrite add_prompt_fresh_cache, DictMore.set_absent by assumption.
    destruct entries as [|e entries].
    + reflexivity.
    + rewrite IH; simpl.
      * now rewrite <- app_assoc.
      * now rewrite <- app_assoc.
      * discriminate.
Qed.

(** X5. On a router with an empty catalog, adding the items of a
    non-empty dictionary one by one with [add_prompt] gives the same
    router as [load_prompt_library] of the dictionary. *)
Theorem add_prompts_is_load self (prompts : Dict.t prompt_data) :
  prompt_library self = [] -> Dict.wf prompts -> prompts <> [] ->
  add_prompts embed self prompts = load_prompt_library embed self prompts.
Proof.
  intros Hlib Hwf Hne. rewrite load_fresh_cache by assumption.
  rewrite add_prompts_fresh_cache.
  - now rewrite Hlib.
  - now rewrite Hlib.
  - assumption.
Qed.

End CatalogMore.

(** ** The ranking, continued *)

Lemma StronglySorted_app_cross (A : Type) (P : A -> A -> Prop) (l1 l2 : list A) :
  StronglySorted P (l1 ++ l2) -> forall a b, In a l1 -> In b l2 -> P a b.
Proof.
  induction l1 as [|x l1 IH]; simpl; intros Hs a b Ha Hb; [contradiction|].
  inversion Hs as [|? ? Hs' Hx]; subst. destruct Ha as [->|Ha].
  - rewrite Forall_forall in Hx. apply Hx. apply in_or_app. now right.
  - now apply (IH Hs').
Qed.

Lemma NoDup_firstn (A : Type) (n : nat) (l : list A) :
  NoDup l -> NoDup (firstn n l).
Proof.
  intros H. rewrite <- (firstn_skipn n l) in H. now apply NoDup_app_remove_r in H.
Qed.

Section RankingMore.

Variable R : Type.
Variable zero : R.
Variable add mul : R -> R -> R.
Variable leb : R -> R -> bool.
Variable embed : string -> list R.
Variable argsort : list R -> list nat.

Hypothesis argsort_ok : argsort_spec leb argsort.

Local Abbreviation router := (SystemPromptRouter R).
Local Abbreviation find_best := (find_best_prompt zero add mul embed argsort).
Local Abbreviation sims := (scores zero add mul embed).
Local Abbreviation tuple_at := (match_at zero add mul embed).

Implicit Types (self : router).

Lemma argsort_perm_of_spec (xs : list R) :
  Permutation (argsort xs) (seq 0 (List.length xs)).
Proof. apply argsort_ok. Qed.

Lemma ranked_order_sorted (xs : list R) :
  StronglySorted (fun i j => key_le leb xs j i) (rev (argsort xs)).
Proof. apply StronglySorted_rev. apply argsort_ok. Qed.

Lemma ranked_order_NoDup (xs : list R) : NoDup (rev (argsort xs)).
Proof.
  apply NoDup_rev. apply (Permutation_NoDup (Permutation_sym (argsort_perm_of_spec xs))).
  apply seq_NoDup.
Qed.

Lemma ranked_order_complete (xs : list R) (i : nat) :
  i < List.length xs -> In i (rev (argsort xs)).
Proof.
  intros Hi. apply in_rev. rewrite rev_involutive.
  apply (Permutation_in _ (Permutation_sym (argsort_perm_of_spec xs))).
  apply in_seq. lia.
Qed.

Lemma find_best_prompt_ranked_more self (q : string) (k : Z) :
  reachable embed self -> prompt_library self <> [] ->
  find_best self q k =
  inr (map (tuple_at (prompt_library self) q)
           (slice_to k (rev (argsort (sims (prompt_library self) q))))).
Proof.
  intros Hr Hne. apply find_best_prompt_cached;
    [apply argsort_perm_of_spec|now apply reachable_cache_ok|assumption].
Qed.

(** X6. What [find_best_prompt] returns are the highest-scoring
    entries: every returned score is at least the score of every catalog
    entry that is not returned. *)
Theorem find_best_prompt_returns_highest self (q : string) (k : Z) :
  reachable embed self -> prompt_library self <> [] ->
  exists res,
    find_best self q k = inr res /\
    forall r name data,
      In r res ->
      get_prompt_details self name = Some data ->
      ~ In name (map (@name_of R) res) ->
      leb (dot zero add mul (embed (description data)) (embed q)) (score_of r) = true.
Proof.
  intros Hr Hne. rewrite (find_best_prompt_ranked_more q k Hr Hne).
  eexists. split; [reflexivity|].
  intros r name data Hin Hget Hnot.
  set (lib := prompt_library self) in *.
  set (L := rev (argsort (sims lib q))) in *.
  destruct (slice_to_firstn k L) as [n Hn]. rewrite Hn in *.
  apply in_map_iff in Hin. destruct Hin as (a & <- & Ha).
  unfold get_prompt_details in Hget. fold lib in Hget.
  destruct (DictMore.get_Some_nth_error _ _ Hget) as [i Hi].
  assert (Hilt : i < List.length lib).
  { apply nth_error_Some. congruence. }
  assert (Halt : a < List.length lib).
  { apply In_firstn in Ha. apply in_rev in Ha.
    apply (Permutation_in _ (argsort_perm_of_spec _)) in Ha.
    apply in_seq in Ha. rewrite length_scores in Ha. lia. }
  destruct (nth_error_match_at zero add mul embed lib q Hilt) as (data' & Hnth & Hscore & _).
  rewrite Hi in Hnth. injection Hnth as Hname <-.
  assert (Hskip : In i (skipn n L)).
  { assert (HiL : In i L) by (apply ranked_order_complete; now rewrite length_scores).
    rewrite <- (firstn_skipn n L) in HiL. apply in_app_or in HiL.
    destruct HiL as [Hfirst|Hskip]; [|exact Hskip].
    exfalso. apply Hnot. rewrite map_map. apply in_map_iff. exists i.
    split; [now symmetry|exact Hfirst]. }
  pose proof (ranked_order_sorted (sims lib q)) as Hs. fold L in Hs.
  rewrite <- (firstn_skipn n L) in Hs.
  pose proof (@StronglySorted_app_cross _ _ _ _ Hs a i Ha Hskip) as Hle.
  cbv beta in Hle. rewrite <- Hscore.
  apply Hle; now apply nth_error_scores.
Qed.

(** X7. [find_best_prompt] never returns an entry twice: the names of
    the tuples it returns are distinct names of the catalog. *)
Theorem find_best_prompt_names_distinct self (q : string) (k : Z) :
  reachable embed self -> prompt_library self <> [] ->
  exists res,
    find_best self q k = inr res /\
    NoDup (map (@name_of R) res) /\
    incl (map (@name_of R) res) (Dict.keys (prompt_library self)).
Proof.
  intros Hr Hne. rewrite (find_best_prompt_ranked_more q k Hr Hne).
  eexists. split; [reflexivity|].
  destruct (reachable_cache_ok Hr) as [Hwf _].
  set (lib := prompt_library self) in *.
  set (L := rev (argsort (sims lib q))) in *.
  destruct (slice_to_firstn k L) as [n Hn]. rewrite Hn. rewrite map_map.
  assert (Hrange : forall a, In a (firstn n L) -> a < List.length lib).
  { intros a Ha. apply In_firstn in Ha. apply in_rev in Ha.
    apply (Permutation_in _ (argsort_perm_of_spec _)) in Ha.
    apply in_seq in Ha. rewrite length_scores in Ha. lia. }
  assert (Hkey : forall a, a < List.length lib ->
            nth_error (Dict.keys lib) a = Some (name_of (tuple_at lib q a))).
  { intros a Ha. destruct (nth_error_match_at zero add mul embed lib q Ha) as (data & Hnth & _).
    unfold Dict.keys. now rewrite nth_error_map, Hnth. }
  split.
  - apply NoDup_map_NoDup_ForallPairs.
    + intros a b Ha Hb Heq. apply Hrange in Ha, Hb.
      apply (proj1 (NoDup_nth_error (Dict.keys lib)) Hwf).
      * unfold Dict.keys. now rewrite length_map.
      * rewrite (Hkey a Ha), (Hkey b Hb). now f_equal.
    + apply NoDup_firstn. apply ranked_order_NoDup.
  - intros name Hname. apply in_map_iff in Hname. destruct Hname as (a & <- & Ha).
    eapply nth_error_In. apply Hkey. now apply Hrange.
Qed.

(** X8. Asking for fewer results gives a prefix of what asking for more
    gives: for [0 <= k <= k'] the result for [k] is the first [k] tuples
    of the result for [k']. *)
Theorem find_best_prompt_prefix self (q : string) (k k' : Z) :
  reachable embed self -> prompt_library self <> [] ->
  (0 <= k <= k')%Z ->
  exists res res',
    find_best self q k = inr res /\
    find_best self q k' = inr res' /\
    res = firstn (Z.to_nat k) res'.
Proof.
  intros Hr Hne Hk.
  rewrite (find_best_prompt_ranked_more q k Hr Hne).
  rewrite (find_best_prompt_ranked_more q k' Hr Hne).
  eexists. eexists. split; [reflexivity|]. split; [reflexivity|].
  unfold slice_to.
  replace (0 <=? k)%Z with true by (symmetry; apply Z.leb_le; lia).
  replace (0 <=? k')%Z with true by (symmetry; apply Z.leb_le; lia).
  rewrite firstn_map, firstn_firstn.
  now replace (Nat.min (Z.to_nat k) (Z.to_nat k')) with (Z.to_nat k) by lia.
Qed.

(** X9. On a non-empty catalog [top_k = 0] gives the empty list, not an
    error, and a negative [top_k] is read as a Python slice bound: the
    result leaves out that many entries (all of them when the catalog
    has no more). *)
Theorem find_best_prompt_nonpositive_k self (q : string) (k : Z) :
  reachable embed self -> prompt_library self <> [] ->
  (k <= 0)%Z ->
  exists res,
    find_best self q k = inr res /\
    (k = 0%Z -> res = []) /\
    ((k < 0)%Z ->
     List.length res = List.length (prompt_library self) - Z.to_nat (- k)).
Proof.
  intros Hr Hne Hk. rewrite (find_best_prompt_ranked_more q k Hr Hne).
  eexists. split; [reflexivity|]. split.
  - intros ->. reflexivity.
  - intros Hneg. rewrite length_map. unfold slice_to.
    replace (0 <=? k)%Z with false by (symmetry; apply Z.leb_gt; lia).
    rewrite length_firstn, length_rev,
      (Permutation_length (argsort_perm_of_spec _)), length_seq, length_scores.
    lia.
Qed.

End RankingMore.

(** ** Response generation *)

Section GenerateMore.

Variable R : Type.
Variable zero : R.
Variable add mul : R -> R -> R.
Variable leb : R -> R -> bool.
Variable embed : string -> list R.
Variable argsort : list R -> list nat.
Variable chat_create : string -> string -> string -> result completion.

Local Abbreviation router := (SystemPromptRouter R).
Local Abbreviation find_best := (find_best_prompt zero add mul embed argsort).
Local Abbreviation generate :=
  (generate_response zero add mul embed argsort chat_create).

Implicit Types (self : router).

(** X10. With a non-empty custom system prompt [generate_response]
    never raises and never consults the catalog, whatever the state of
    the router, the [use_best_prompt] flag and the answer of the
    service: it returns a dictionary whose matched prompt is [custom],
    whose similarity score is [None] and whose system prompt is the
    custom one. *)
Theorem generate_response_custom self (q : string) (use_best : bool) (s : string) :
  s <> EmptyString ->
  exists d,
    generate self q use_best (Some s) = inr d /\
    Dict.get d "matched_prompt" = Some (VStr R "custom") /\
    Dict.get d "similarity_score" = Some (VNone R) /\
    Dict.get d "system_prompt_used" = Some (VStr R s).
Proof.
  intros Hs. destruct s as [|c cs]; [congruence|].
  unfold generate_response, select_system_prompt. simpl.
  unfold try_body.
  destruct (chat_create (openai_model self) (String c cs) q) as [e|resp]; simpl.
  - eexists. repeat split; reflexivity.
  - destruct (choices resp) as [|content rest]; simpl;
      eexists; repeat split; reflexivity.
Qed.

(** X11. Without a custom system prompt (absent or empty) the errors of
    the prompt selection are not caught: with [use_best_prompt] false
    [generate_response] raises its own [ValueError], and with it true on
    an empty catalog the no-prompts error of [find_best_prompt] comes
    out, before the service is called. *)
Theorem generate_response_selection_errors self (q : string) (custom : option string) :
  custom = None \/ custom = Some EmptyString ->
  generate self q false custom
    = inl (ValueError
        "Either use_best_prompt must be True or custom_system_prompt must be provided") /\
  (prompt_library self = [] ->
   generate self q true custom = inl no_prompts_loaded).
Proof.
  intros Hc. split.
  - destruct Hc as [->| ->]; reflexivity.
  - intros Hlib. unfold generate_response, select_system_prompt, find_best_prompt.
    rewrite Hlib. destruct Hc as [->| ->]; reflexivity.
Qed.

(** X12. On a non-empty catalog, with no custom system prompt,
    [generate_response] never raises: it uses the single tuple
    [find_best_prompt] returns for [top_k = 1], that is a catalog name,
    its score and the system prompt stored under the name, and reports
    the three in the dictionary it returns.  The error
    [No prompts available for matching] cannot occur. *)
Theorem generate_response_best_prompt self (q : string) (custom : option string) :
  argsort_spec leb argsort ->
  reachable embed self -> prompt_library self <> [] ->
  custom = None \/ custom = Some EmptyString ->
  exists name score data d,
    find_best self q 1 = inr [(name, score, system_prompt data)] /\
    get_prompt_details self name = Some data /\
    generate self q true custom = inr d /\
    Dict.get d "matched_prompt" = Some (VStr R name) /\
    Dict.get d "similarity_score" = Some (VFloat score) /\
    Dict.get d "system_prompt_used" = Some (VStr R (system_prompt data)).
Proof.
  intros Hspec Hr Hne Hc.
  assert (Hperm : forall xs, Permutation (argsort xs) (seq 0 (List.length xs)))
    by (intros xs; apply Hspec).
  destruct (reachable_cache_ok Hr) as [Hwf Hcache].
  pose proof (@find_best_prompt_cached R zero add mul embed argsort Hperm self q 1%Z
                (conj Hwf Hcache) Hne) as Hfind.
  set (lib := prompt_library self) in *.
  remember (rev (argsort (scores zero add mul embed lib q))) as L eqn:EL.
  assert (HL : List.length L = List.length lib).
  { rewrite EL. now rewrite length_rev, (Permutation_length (Hperm _)), length_seq, length_scores. }
  destruct L as [|a L'].
  { simpl in HL. destruct lib; [congruence|discriminate]. }
  change (slice_to 1 (a :: L')) with [a] in Hfind. simpl map in Hfind.
  assert (Ha : a < List.length lib).
  { assert (Hin : In a (rev (argsort (scores zero add mul embed lib q))))
      by (rewrite <- EL; now left).
    apply in_rev in Hin. apply (Permutation_in _ (Hperm _)) in Hin.
    apply in_seq in Hin. rewrite length_scores in Hin. lia. }
  destruct (nth_error_match_at zero add mul embed lib q Ha) as (data & Hnth & _ & Hpay).
  destruct (match_at zero add mul embed lib q a) as [[name score] payload] eqn:Et.
  unfold name_of, payload_of in *. simpl in Hnth, Hpay. subst payload.
  assert (Hsel : select_system_prompt zero add mul embed argsort self q true custom
                 = inr (name, Some score, system_prompt data)).
  { unfold select_system_prompt. rewrite Hfind. destruct Hc as [->| ->]; reflexivity. }
  assert (Hget : get_prompt_details self name = Some data)
    by (unfold get_prompt_details; eapply DictFacts.get_nth_error; eassumption).
  unfold generate_response. rewrite Hsel. simpl. unfold try_body.
  exists name, score, data.
  destruct (chat_create (openai_model self) (system_prompt data) q) as [e|resp]; simpl.
  - eexists. repeat split; try reflexivity; assumption.
  - destruct (choices resp) as [|content rest]; simpl;
      eexists; repeat split; try reflexivity; assumption.
Qed.

(** X13. When the service answers, [generate_response] reports the
    content of the first choice with the matched prompt, the score, the
    system prompt, the model and the usage; an answer with no choice at
    all is caught like a failure and reported under [error]. *)
Theorem generate_response_completion self (q : string) (use_best : bool)
    (custom : option string) (matched : string) (score : option R)
    (sp : string) (resp : completion) :
  select_system_prompt zero add mul embed argsort self q use_best custom
    = inr (matched, score, sp) ->
  chat_create (openai_model self) sp q = inr resp ->
  generate self q use_best custom =
  match choices resp with
  | content :: _ =>
      inr [("response", opt_str R content);
           ("matched_prompt", VStr R matched);
           ("similarity_score", opt_float score);
           ("system_prompt_used", VStr R sp);
           ("model_used", VStr R (openai_model self));
           ("usage", opt_usage R (usage resp))]
  | [] =>
      inr [("error", VStr R "list index out of range");
           ("matched_prompt", VStr R matched);
           ("similarity_score", opt_float score);
           ("system_prompt_used", VStr R sp)]
  end.
Proof.
  intros Hsel Hcall. unfold generate_response. rewrite Hsel. simpl.
  unfold try_body. rewrite Hcall. simpl.
  destruct (choices resp); reflexivity.
Qed.

End GenerateMore.

(** ** The email categorizer *)

Section ClassifierFacts.

Variable R : Type.
Variable zero : R.
Variable add mul : R -> R -> R.
Variable leb : R -> R -> bool.
Variable embed : string -> list R.

Hypothesis leb_total : forall a b, leb a b = true \/ leb b a = true.
Hypothesis leb_trans :
  forall a b c, leb a b = true -> leb b c = true -> leb a c = true.

(** The scan keeps the first maximum of what it has seen. *)
Lemma argmax_from_spec (xs : list R) :
  forall (pre : list R) (bi : nat) (b : R),
    nth_error pre bi = Some b ->
    (forall j x, nth_error pre j = Some x -> leb x b = true) ->
    (forall j x, j < bi -> nth_error pre j = Some x -> leb b x = false) ->
    exists m,
      nth_error (pre ++ xs) (argmax_from leb bi b (List.length pre) xs) = Some m /\
      (forall j x, nth_error (pre ++ xs) j = Some x -> leb x m = true) /\
      (forall j x, j < argmax_from leb bi b (List.length pre) xs ->
                   nth_error (pre ++ xs) j = Some x -> leb m x = false).
Proof.
  induction xs as [|x xs IH]; intros pre bi b Hbi Hmax Hfirst.
  - simpl. rewrite app_nil_r. exists b. now repeat split.
  - assert (Hlt : bi < List.length pre) by (apply nth_error_Some; congruence).
    assert (Hsnoc : forall j y, nth_error (pre ++ [x]) j = Some y ->
              (j < List.length pre /\ nth_error pre j = Some y) \/
              (j = List.length pre /\ y = x)).
    { intros j y Hj. destruct (Nat.lt_ge_cases j (List.length pre)) as [Hl|Hg].
      - left. split; [assumption|]. now rewrite nth_error_app1 in Hj.
      - right. rewrite nth_error_app2 in Hj by assumption.
        destruct (j - List.length pre) as [|n] eqn:E; simpl in Hj.
        + injection Hj as <-. split; [lia|reflexivity].
        + destruct n; discriminate. }
    replace (pre ++ x :: xs) with ((pre ++ [x]) ++ xs) by now rewrite <- app_assoc.
    simpl. replace (S (List.length pre)) with (List.length (pre ++ [x]))
      by (rewrite length_app; simpl; lia).
    destruct (leb x b) eqn:E.
    + apply IH.
      * now rewrite nth_error_app1.
      * intros j y Hj. destruct (Hsnoc j y Hj) as [[_ Hp]|[_ ->]];
          [now apply (Hmax j)|exact E].
      * intros j y Hjlt Hj. destruct (Hsnoc j y Hj) as [[_ Hp]|[-> _]];
          [now apply (Hfirst j)|lia].
    + assert (Hbx : leb b x = true) by (destruct (leb_total x b); congruence).
      apply IH.
      * rewrite nth_error_app2 by lia. now rewrite Nat.sub_diag.
      * intros j y Hj. destruct (Hsnoc j y Hj) as [[_ Hp]|[_ ->]].
        -- eapply leb_trans; [now apply (Hmax j)|exact Hbx].
        -- destruct (leb_total x x); assumption.
      * intros j y Hjlt Hj. destruct (Hsnoc j y Hj) as [[_ Hp]|[-> _]]; [|lia].
        destruct (leb x y) eqn:Exy; [|reflexivity].
        rewrite (leb_trans Exy (Hmax j y Hp)) in E. discriminate.
Qed.

Lemma np_argmax_spec (xs : list R) :
  xs <> [] ->
  exists i m,
    np_argmax leb xs = inr i /\
    nth_error xs i = Some m /\
    (forall j x, nth_error xs j = Some x -> leb x m = true) /\
    (forall j x, j < i -> nth_error xs j = Some x -> leb m x = false).
Proof.
  destruct xs as [|x xs]; [congruence|]. intros _.
  destruct (@argmax_from_spec xs [x] 0 x) as (m & Hm & Hmax & Hfirst).
  - reflexivity.
  - intros [|[|j]] y Hj; simpl in Hj; try discriminate.
    injection Hj as <-. destruct (leb_total x x); assumption.
  - intros j y Hj. lia.
  - simpl in *. exists (argmax_from leb 0 x 1 xs), m. now repeat split.
Qed.

(** X14. [_classify_category] returns the first category, in the order
    of the agent's dictionary, whose description scores highest against
    the email, with that raw inner product as confidence: no category
    scores higher and every earlier one scores strictly lower.  With no
    category at all it falls back to [UNKNOWN] with confidence zero. *)
Theorem classify_category_first_best (self : EmailCategorizationAgent)
    (email_content : string) :
  (category_prompts self = [] ->
   _classify_category zero add mul leb embed self email_content = (UNKNOWN, zero)) /\
  (category_prompts self <> [] ->
   exists i category desc,
     nth_error (category_prompts self) i = Some (category, desc) /\
     _classify_category zero add mul leb embed self email_content
       = (category, dot zero add mul (embed desc) (embed email_content)) /\
     (forall j c d, nth_error (category_prompts self) j = Some (c, d) ->
        leb (dot zero add mul (embed d) (embed email_content))
            (dot zero add mul (embed desc) (embed email_content)) = true) /\
     (forall j c d, j < i -> nth_error (category_prompts self) j = Some (c, d) ->
        leb (dot zero add mul (embed desc) (embed email_content))
            (dot zero add mul (embed d) (embed email_content)) = false)).
Proof.
  split.
  - intros Hnil. unfold _classify_category, classify_body. now rewrite Hnil.
  - intros Hne.
    set (prompts := category_prompts self) in *.
    set (score := fun p : EmailCategory * string =>
                    dot zero add mul (embed (snd p)) (embed email_content)).
    assert (Hsims : np_dot_flat zero add mul (encode embed (map snd prompts))
                      (encode embed [email_content]) = map score prompts).
    { unfold encode. simpl. rewrite np_dot_flat_row. now rewrite !map_map. }
    destruct (@np_argmax_spec (map score prompts)) as (i & m & Harg & Hi & Hmax & Hfirst).
    { destruct prompts; [congruence|discriminate]. }
    rewrite nth_error_map in Hi.
    destruct (nth_error prompts i) as [[category desc]|] eqn:Ei; [|discriminate].
    simpl in Hi. injection Hi as <-.
    exists i, category, desc. split; [exact Ei|]. split; [|split].
    + unfold _classify_category, classify_body. fold prompts. cbv zeta.
      rewrite Hsims, Harg. simpl.
      unfold list_getitem. rewrite !nth_error_map, Ei. reflexivity.
    + intros j c d Hj. apply (Hmax j). now rewrite nth_error_map, Hj.
    + intros j c d Hlt Hj. apply (Hfirst j); [exact Hlt|]. now rewrite nth_error_map, Hj.
Qed.

End ClassifierFacts.

(** ** The prompt library module *)

Lemma contains_empty (hay : string) : contains EmptyString hay = true.
Proof. destruct hay; reflexivity. Qed.

Section PromptLibraryFacts.

Variable PROMPT_LIBRARY : Dict.t prompt_data.
Variable lower : string -> string.

Hypothesis library_wf : Dict.wf PROMPT_LIBRARY.

Local Abbreviation search := (search_prompts_by_keyword PROMPT_LIBRARY lower).
Local Abbreviation matches := (keyword_matches lower).

Lemma search_loop (keyword : string) (rest : list (string * prompt_data)) :
  forall acc : Dict.t prompt_data,
    NoDup (Dict.keys (acc ++ rest)) ->
    fold_left
      (fun matching_prompts item =>
         if matches keyword item
         then Dict.set matching_prompts (fst item) (snd item)
         else matching_prompts)
      rest acc
    = acc ++ filter (matches keyword) rest.
Proof.
  induction rest as [|[k v] rest IH]; intros acc Hnd; simpl.
  - now rewrite app_nil_r.
  - assert (Hk : ~ In k (Dict.keys acc)).
    { unfold Dict.keys in *. rewrite map_app in Hnd. simpl in Hnd.
      apply NoDup_remove_2 in Hnd. intros H. apply Hnd. apply in_or_app. now left. }
    destruct (matches keyword (k, v)) eqn:E.
    + rewrite DictMore.set_absent by assumption. rewrite IH.
      * now rewrite <- app_assoc.
      * now rewrite <- app_assoc.
    + apply IH. unfold Dict.keys in *. rewrite map_app in *. simpl in Hnd.
      now apply NoDup_remove_1 in Hnd.
Qed.

Lemma search_filter (keyword : string) :
  search keyword = filter (matches (lower keyword)) PROMPT_LIBRARY.
Proof.
  unfold search_prompts_by_keyword, Dict.items. cbv zeta.
  now rewrite search_loop.
Qed.

Lemma get_filter (f : string * prompt_data -> bool) (lib : Dict.t prompt_data)
    (name : string) (data : prompt_data) :
  Dict.wf lib ->
  (Dict.get (filter f lib) name = Some data <->
   Dict.get lib name = Some data /\ f (name, data) = true).
Proof.
  unfold Dict.wf. induction lib as [|[k v] lib IH]; intros Hwf; simpl.
  - split; [discriminate|]. intros [H _]. discriminate.
  - simpl in Hwf. inversion Hwf as [|? ? Hnin Hwf']; subst.
    destruct (String.eqb k name) eqn:E.
    + apply String.eqb_eq in E. subst k.
      assert (Hnone : Dict.get (filter f lib) name = None).
      { apply DictFacts.get_None. intros H. apply Hnin.
        unfold Dict.keys in *. apply in_map_iff in H. destruct H as (x & Hx & Hin).
        apply filter_In in Hin. apply in_map_iff. exists x. tauto. }
      destruct (f (name, v)) eqn:Ef; simpl.
      * rewrite String.eqb_refl. split.
        -- intros H. injection H as <-. now split.
        -- intros [H _]. exact H.
      * rewrite Hnone. split; [discriminate|].
        intros [H Hf]. injection H as <-. congruence.
    + destruct (f (k, v)); simpl; [rewrite E|]; now apply IH.
Qed.

(** X15. [search_prompts_by_keyword] returns exactly the entries of the
    library whose lower-cased description or lower-cased name contains
    the lower-cased keyword, in the library's order and with the
    library's data: an entry is found in the result if and only if
    [get_prompt_by_name] finds it and it matches. *)
Theorem search_prompts_by_keyword_exact (keyword : string) :
  search keyword = filter (matches (lower keyword)) PROMPT_LIBRARY /\
  forall name data,
    Dict.get (search keyword) name = Some data <->
    get_prompt_by_name PROMPT_LIBRARY name = Some data /\
    (contains (lower keyword) (lower (description data)) = true \/
     contains (lower keyword) (lower name) = true).
Proof.
  split; [apply search_filter|].
  intros name data. rewrite search_filter, get_filter by exact library_wf.
  unfold get_prompt_by_name, keyword_matches. simpl.
  now rewrite orb_true_iff.
Qed.

(** X16. The empty keyword matches everything: when lower-casing the
    empty string gives the empty string, the search returns the whole
    library. *)
Theorem search_prompts_by_keyword_empty :
  lower EmptyString = EmptyString ->
  search EmptyString = get_prompt_library PROMPT_LIBRARY.
Proof.
  intros Hlower. rewrite search_filter, Hlower. unfold get_prompt_library.
  rewrite <- (filter_true PROMPT_LIBRARY) at 2. apply filter_ext.
  intros item. unfold keyword_matches. now rewrite contains_empty.
Qed.

End PromptLibraryFacts.

(** ** The further properties on the sample instance *)

Module SampleMoreFacts.

Lemma library_wf : Dict.wf SampleMore.library.
Proof.
  unfold Dict.wf. simpl. repeat constructor; simpl; intuition discriminate.
Qed.

Lemma library_not_empty : SampleMore.library <> [].
Proof. discriminate. Qed.

Example classify_tie :
  _classify_category 0%Z Z.add Z.mul Z.leb Sample.embed SampleMore.agent "hi"
  = (WORK, 17%Z).
Proof. reflexivity. Qed.

Example search_upper_case :
  Dict.keys (search_prompts_by_keyword SampleMore.library SampleMore.lower "CODE")
  = ["code_writer"; "data_analyst"].
Proof. reflexivity. Qed.

Example generate_no_choice :
  generate_response 0%Z Z.add Z.mul Sample.embed Sample.argsort
    SampleMore.chat_no_choice Sample.pets "pets" true None
  = inr [("error", VStr Z "list index out of range");
         ("matched_prompt", VStr Z "b");
         ("similarity_score", VFloat 17%Z);
         ("system_prompt_used", VStr Z "PB")].
Proof. reflexivity. Qed.

End SampleMoreFacts.

Lemma add_prompt_fresh_appends_witness :
  prompt_library (add_prompt Sample.embed Sample.two "poetry" "verse" "You are a poet.")
    = prompt_library Sample.two ++ [("poetry", mk_prompt_data "verse" "You are a poet.")] /\
  prompt_names (add_prompt Sample.embed Sample.two "poetry" "verse" "You are a poet.")
    = Dict.keys (prompt_library Sample.two) ++ ["poetry"] /\
  prompt_embeddings (add_prompt Sample.embed Sample.two "poetry" "verse" "You are a poet.")
    = Some (encode Sample.embed (descriptions_of (prompt_library Sample.two))
            ++ [Sample.embed "verse"]).
Proof.
  apply (@add_prompt_fresh_appends Z Sample.embed Sample.two
           "poetry" "verse" "You are a poet.").
  reflexivity.
Defined.

Lemma load_prompt_library_forgets_witness :
  prompt_library (load_prompt_library Sample.embed Sample.two SampleMore.library)
    = prompt_library (load_prompt_library Sample.embed Sample.pets SampleMore.library) /\
  prompt_names (load_prompt_library Sample.embed Sample.two SampleMore.library)
    = prompt_names (load_prompt_library Sample.embed Sample.pets SampleMore.library) /\
  prompt_embeddings (load_prompt_library Sample.embed Sample.two SampleMore.library)
    = prompt_embeddings (load_prompt_library Sample.embed Sample.pets SampleMore.library) /\
  prompt_library (load_prompt_library Sample.embed Sample.two SampleMore.library)
    = SampleMore.library /\
  prompt_names (load_prompt_library Sample.embed Sample.two SampleMore.library)
    = Dict.keys SampleMore.library /\
  prompt_embeddings (load_prompt_library Sample.embed Sample.two SampleMore.library)
    = Some (encode Sample.embed (descriptions_of SampleMore.library)).
Proof.
  apply (@load_prompt_library_forgets Z Sample.embed Sample.two Sample.pets
           SampleMore.library).
  discriminate.
Defined.

Lemma add_prompts_is_load_witness :
  add_prompts Sample.embed Sample.empty_router SampleMore.library
  = load_prompt_library Sample.embed Sample.empty_router SampleMore.library.
Proof.
  apply (@add_prompts_is_load Z Sample.embed Sample.empty_router SampleMore.library).
  - reflexivity.
  - exact SampleMoreFacts.library_wf.
  - discriminate.
Defined.

Lemma find_best_prompt_returns_highest_witness :
  exists res,
    find_best_prompt 0%Z Z.add Z.mul Sample.embed Sample.argsort
      Sample.two "how do I write a sort function" 1 = inr res /\
    forall r name data,
      In r res ->
      get_prompt_details Sample.two name = Some data ->
      ~ In name (map (@name_of Z) res) ->
      (dot 0%Z Z.add Z.mul (Sample.embed (description data))
           (Sample.embed "how do I write a sort function") <=? score_of r)%Z = true.
Proof.
  exact (@find_best_prompt_returns_highest Z 0%Z Z.add Z.mul Z.leb
           Sample.embed Sample.argsort SampleFacts.argsort_ok
           Sample.two "how do I write a sort function" 1%Z
           SampleFacts.two_reachable SampleFacts.two_not_empty).
Defined.

Lemma find_best_prompt_names_distinct_witness :
  exists res,
    find_best_prompt 0%Z Z.add Z.mul Sample.embed Sample.argsort
      Sample.pets "pets" 2 = inr res /\
    NoDup (map (@name_of Z) res) /\
    incl (map (@name_of Z) res) (Dict.keys (prompt_library Sample.pets)).
Proof.
  exact (@find_best_prompt_names_distinct Z 0%Z Z.add Z.mul Z.leb
           Sample.embed Sample.argsort SampleFacts.argsort_ok
           Sample.pets "pets" 2%Z
           SampleFacts.pets_reachable SampleFacts.pets_not_empty).
Defined.

Lemma find_best_prompt_prefix_witness :
  exists res res',
    find_best_prompt 0%Z Z.add Z.mul Sample.embed Sample.argsort
      Sample.two "query" 1 = inr res /\
    find_best_prompt 0%Z Z.add Z.mul Sample.embed Sample.argsort
      Sample.two "query" 2 = inr res' /\
    res = firstn (Z.to_nat 1) res'.
Proof.
  apply (@find_best_prompt_prefix Z 0%Z Z.add Z.mul Z.leb
           Sample.embed Sample.argsort SampleFacts.argsort_ok
           Sample.two "query" 1%Z 2%Z
           SampleFacts.two_reachable SampleFacts.two_not_empty).
  lia.
Defined.

Lemma find_best_prompt_nonpositive_k_witness :
  exists res,
    find_best_prompt 0%Z Z.add Z.mul Sample.embed Sample.argsort
      Sample.two "query" (-1) = inr res /\
    ((-1)%Z = 0%Z -> res = []) /\
    ((-1 < 0)%Z ->
     List.length res = List.length (prompt_library Sample.two) - Z.to_nat (- (-1))).
Proof.
  apply (@find_best_prompt_nonpositive_k Z 0%Z Z.add Z.mul Z.leb
           Sample.embed Sample.argsort SampleFacts.argsort_ok
           Sample.two "query" (-1)%Z
           SampleFacts.two_reachable SampleFacts.two_not_empty).
  lia.
Defined.

Lemma generate_response_custom_witness :
  exists d,
    generate_response 0%Z Z.add Z.mul Sample.embed Sample.argsort Sample.chat_fail
      Sample.empty_router "test query" true (Some "You are a custom assistant.")
      = inr d /\
    Dict.get d "matched_prompt" = Some (VStr Z "custom") /\
    Dict.get d "similarity_score" = Some (VNone Z) /\
    Dict.get d "system_prompt_used" = Some (VStr Z "You are a custom assistant.").
Proof.
  apply (@generate_response_custom Z 0%Z Z.add Z.mul Sample.embed Sample.argsort
           Sample.chat_fail Sample.empty_router "test query" true
           "You are a custom assistant.").
  discriminate.
Defined.

Lemma generate_response_selection_errors_witness :
  generate_response 0%Z Z.add Z.mul Sample.embed Sample.argsort SampleMore.chat_ok
    Sample.empty_router "test query" false None
    = inl (ValueError
        "Either use_best_prompt must be True or custom_system_prompt must be provided") /\
  (prompt_library Sample.empty_router = [] ->
   generate_response 0%Z Z.add Z.mul Sample.embed Sample.argsort SampleMore.chat_ok
     Sample.empty_router "test query" true None = inl no_prompts_loaded).
Proof.
  apply (@generate_response_selection_errors Z 0%Z Z.add Z.mul Sample.embed
           Sample.argsort SampleMore.chat_ok Sample.empty_router "test query" None).
  now left.
Defined.

Lemma generate_response_best_prompt_witness :
  exists name score data d,
    find_best_prompt 0%Z Z.add Z.mul Sample.embed Sample.argsort
      Sample.two "test query" 1 = inr [(name, score, system_prompt data)] /\
    get_prompt_details Sample.two name = Some data /\
    generate_response 0%Z Z.add Z.mul Sample.embed Sample.argsort SampleMore.chat_ok
      Sample.two "test query" true None = inr d /\
    Dict.get d "matched_prompt" = Some (VStr Z name) /\
    Dict.get d "similarity_score" = Some (VFloat score) /\
    Dict.get d "system_prompt_used" = Some (VStr Z (system_prompt data)).
Proof.
  apply (@generate_response_best_prompt Z 0%Z Z.add Z.mul Z.leb Sample.embed
           Sample.argsort SampleMore.chat_ok Sample.two "test query" None).
  - exact SampleFacts.argsort_ok.
  - exact SampleFacts.two_reachable.
  - exact SampleFacts.two_not_empty.
  - now left.
Defined.

Lemma generate_response_completion_witness :
  generate_response 0%Z Z.add Z.mul Sample.embed Sample.argsort SampleMore.chat_ok
    Sample.pets "pets" true None
  = inr [("response", VStr Z "Hello");
         ("matched_prompt", VStr Z "b");
         ("similarity_score", VFloat 17%Z);
         ("system_prompt_used", VStr Z "PB");
         ("model_used", VStr Z "gpt-3.5-turbo");
         ("usage", VUsage Z [("total_tokens", 100%Z)])].
Proof.
  apply (@generate_response_completion Z 0%Z Z.add Z.mul Sample.embed
           Sample.argsort SampleMore.chat_ok Sample.pets "pets" true None
           "b" (Some 17%Z) "PB"
           (mk_completion [Some "Hello"] (Some [("total_tokens", 100%Z)]))).
  - reflexivity.
  - reflexivity.
Defined.

Lemma classify_category_first_best_witness :
  (category_prompts SampleMore.agent = [] ->
   _classify_category 0%Z Z.add Z.mul Z.leb Sample.embed SampleMore.agent "hi"
   = (UNKNOWN, 0%Z)) /\
  (category_prompts SampleMore.agent <> [] ->
   exists i category desc,
     nth_error (category_prompts SampleMore.agent) i = Some (category, desc) /\
     _classify_category 0%Z Z.add Z.mul Z.leb Sample.embed SampleMore.agent "hi"
       = (category, dot 0%Z Z.add Z.mul (Sample.embed desc) (Sample.embed "hi")) /\
     (forall j c d, nth_error (category_prompts SampleMore.agent) j = Some (c, d) ->
        (dot 0%Z Z.add Z.mul (Sample.embed d) (Sample.embed "hi")
         <=? dot 0%Z Z.add Z.mul (Sample.embed desc) (Sample.embed "hi"))%Z = true) /\
     (forall j c d, j < i ->
        nth_error (category_prompts SampleMore.agent) j = Some (c, d) ->
        (dot 0%Z Z.add Z.mul (Sample.embed desc) (Sample.embed "hi")
         <=? dot 0%Z Z.add Z.mul (Sample.embed d) (Sample.embed "hi"))%Z = false)).
Proof.
  exact (@classify_category_first_best Z 0%Z Z.add Z.mul Z.leb Sample.embed
           SampleFacts.Zleb_total SampleFacts.Zleb_trans SampleMore.agent "hi").
Defined.

Lemma search_prompts_by_keyword_exact_witness :
  search_prompts_by_keyword SampleMore.library SampleMore.lower "CODE"
    = filter (keyword_matches SampleMore.lower (SampleMore.lower "CODE"))
        SampleMore.library /\
  forall name data,
    Dict.get (search_prompts_by_keyword SampleMore.library SampleMore.lower "CODE") name
      = Some data <->
    get_prompt_by_name SampleMore.library name = Some data /\
    (contains (SampleMore.lower "CODE") (SampleMore.lower (description data)) = true \/
     contains (SampleMore.lower "CODE") (SampleMore.lower name) = true).
Proof.
  exact (@search_prompts_by_keyword_exact SampleMore.library SampleMore.lower
           SampleMoreFacts.library_wf "CODE").
Defined.

Lemma search_prompts_by_keyword_empty_witness :
  search_prompts_by_keyword SampleMore.library SampleMore.lower EmptyString
  = get_prompt_library SampleMore.library.
Proof.
  apply (@search_prompts_by_keyword_empty SampleMore.library SampleMore.lower
           SampleMoreFacts.library_wf).
  reflexivity.
Defined.
